(** * tcplib packet codec: CustomPacket, its encoder and its decoder

    A shallow embedding of the framing codec of package [tcplib]
    (types [Packet], [CustomPacket], [Header], [CustomPacketEncoder],
    [CustomPacketDecoder] and their methods), together with the parts of
    Go's [encoding/binary], [io] and [bufio] that the codec calls.

    Conventions.
    - [uint8] and [byte] are Rocq's [byte]; [uint16] and [uint32] are [Z]
      with the wrap-around written out ([u16], [u32], [sub32]).
    - The target is a 64-bit Go platform: [int] has 64 bits, so every
      [uint32] is a valid length for [make([]byte, n)].  Running out of
      memory is not modelled.
    - A nil slice and an empty slice are both the empty list.
    - Methods that mutate their receiver take the old state and return the
      new one; a nil pointer dereference is the outcome [Panic]. *)

From Stdlib Require Import String ZArith List Lia Bool DecimalString.
From coqutil Require Import Byte Z.bitblast.
Import ListNotations.
Local Open Scope Z_scope.

(** ** Errors and outcomes *)

Inductive error : Type :=
| EOF                              (* io.EOF *)
| ErrUnexpectedEOF                 (* io.ErrUnexpectedEOF *)
| TransportError (text : string)   (* any other error of the byte sink or source *)
| errors_New (text : string).      (* errors.New(text) *)

(** The errors that come out of the byte source or sink, as opposed to
    errors made by the codec itself with [errors.New]. *)
Definition is_io_error (e : error) : bool :=
  match e with
  | EOF | ErrUnexpectedEOF | TransportError _ => true
  | errors_New _ => false
  end.

Inductive result (A : Type) : Type :=
| Ok (a : A)
| Err (e : error)
| Panic (why : string).

Arguments Ok {A} a.
Arguments Err {A} e.
Arguments Panic {A} why.

Definition nil_dereference : string :=
  "invalid memory address or nil pointer dereference"%string.

(** State and error monad: a Go call that may return an error or panic while
    it updates the object it was handed. *)
Definition M (S A : Type) : Type := S -> result A * S.

Definition ret {S A : Type} (a : A) : M S A := fun s => (Ok a, s).

Definition bind {S A B : Type} (m : M S A) (k : A -> M S B) : M S B :=
  fun s =>
    match m s with
    | (Ok a, s') => k a s'
    | (Err e, s') => (Err e, s')
    | (Panic w, s') => (Panic w, s')
    end.

Notation "x <- m ;; k" := (bind m (fun x => k))
  (at level 61, m at next level, right associativity).
Notation "m ;;; k" := (bind m (fun _ => k))
  (at level 61, right associativity).

(** ** Fixed-width integers *)

Definition u16 (z : Z) : Z := z mod 2 ^ 16.
Definition u32 (z : Z) : Z := z mod 2 ^ 32.
Definition sub32 (a b : Z) : Z := u32 (a - b).

Definition is_u16 (z : Z) : Prop := 0 <= z < 2 ^ 16.
Definition is_u32 (z : Z) : Prop := 0 <= z < 2 ^ 32.

(** ** encoding/binary, big endian *)

Module BigEndian.

(* b[0] = byte(v >> 8); b[1] = byte(v) *)
Definition PutUint16 (v : Z) : list byte :=
  [byte.of_Z (Z.shiftr v 8); byte.of_Z v].

(* b[0] = byte(v >> 24); b[1] = byte(v >> 16); b[2] = byte(v >> 8); b[3] = byte(v) *)
Definition PutUint32 (v : Z) : list byte :=
  [byte.of_Z (Z.shiftr v 24); byte.of_Z (Z.shiftr v 16);
   byte.of_Z (Z.shiftr v 8); byte.of_Z v].

Definition at_ (b : list byte) (i : nat) : Z :=
  byte.unsigned (nth i b Byte.x00).

(* uint16(b[1]) | uint16(b[0])<<8 *)
Definition Uint16 (b : list byte) : Z :=
  Z.lor (at_ b 1) (Z.shiftl (at_ b 0) 8).

(* uint32(b[3]) | uint32(b[2])<<8 | uint32(b[1])<<16 | uint32(b[0])<<24 *)
Definition Uint32 (b : list byte) : Z :=
  Z.lor (Z.lor (Z.lor (at_ b 3) (Z.shiftl (at_ b 2) 8))
               (Z.shiftl (at_ b 1) 16))
        (Z.shiftl (at_ b 0) 24).

End BigEndian.

(** ** The packet types *)

Definition HeaderLen : Z := 13.
Definition SohLen : Z := 1.
Definition EohLen : Z := 2.

Record Header : Type := {
  Seq : Z;        (* uint32 *)
  ErrCode : Z;    (* uint16 *)
  PacketLen : Z;  (* uint32 *)
  Version : byte; (* uint8 *)
  CheckSum : Z    (* uint16 *)
}.

(** [CustomPacket] embeds [Header]: the coercion gives the promoted fields,
    so that [PacketLen p] reads like [p.PacketLen]. *)
Record CustomPacket : Type := {
  SOH : byte;
  embedded :> Header;
  Body : list byte;
  EOH : byte
}.

Definition wf_Header (h : Header) : Prop :=
  is_u32 (Seq h) /\ is_u16 (ErrCode h) /\ is_u32 (PacketLen h) /\
  is_u16 (CheckSum h).

Definition wf_CustomPacket (p : CustomPacket) : Prop := wf_Header p.

(** The [Packet] interface. *)
Class PacketMethods (T : Type) : Type := {
  ID : T -> Z;
  SetErrCode : T -> Z -> T
}.

(* func (p *CustomPacket) ID() uint32 { return p.Seq }
   func (p *CustomPacket) SetErrCode(code uint32) { p.ErrCode = uint16(code) } *)
#[export] Instance CustomPacket_methods : PacketMethods CustomPacket := {
  ID p := Seq p;
  SetErrCode p code :=
    {| SOH := SOH p;
       embedded := {| Seq := Seq p; ErrCode := u16 code;
                      PacketLen := PacketLen p; Version := Version p;
                      CheckSum := CheckSum p |};
       Body := Body p;
       EOH := EOH p |}
}.

(** A value of interface type [Packet]: the nil interface, a [*CustomPacket]
    (a pointer, which may itself be nil), or a value of any other type that
    has the two methods. *)
Inductive Packet : Type :=
| nilPacket
| ptrCustomPacket (target : option CustomPacket)
| otherPacket (T : Type) (methods : PacketMethods T) (v : T).

Arguments otherPacket {T methods} v.

(** ** io.Writer and bufio.Writer *)

(** The byte sink behind the encoder.  [quota = None] is a sink that takes
    everything; [quota = Some (k, e)] takes [k] more bytes and then fails
    with [e]. *)
Record Sink : Type := {
  received : list byte;
  quota : option (nat * error)
}.

(* Write(p) (n int, err error), with err != nil whenever n < len(p) *)
Definition sink_Write (s : Sink) (p : list byte) : nat * option error * Sink :=
  match quota s with
  | None => (length p, None, {| received := received s ++ p; quota := None |})
  | Some (k, e) =>
      if (length p <=? k)%nat
      then (length p, None,
            {| received := received s ++ p; quota := Some ((k - length p)%nat, e) |})
      else (k, Some e,
            {| received := received s ++ firstn k p; quota := Some (0%nat, e) |})
  end.

Record Writer : Type := {
  wr : Sink;
  buf : list byte;         (* b.buf[0:b.n] *)
  size : nat;              (* len(b.buf) *)
  werr : option error      (* b.err *)
}.

Definition Buffered (b : Writer) : nat := length (buf b).
Definition Available (b : Writer) : nat := (size b - length (buf b))%nat.

Definition defaultBufSize : Z := 4096.

Definition NewWriterSize (w : Sink) (sz : Z) : Writer :=
  let sz := if sz <=? 0 then defaultBufSize else sz in
  {| wr := w; buf := []; size := Z.to_nat sz; werr := None |}.

Definition bufio_Flush (b : Writer) : option error * Writer :=
  match werr b with
  | Some e => (Some e, b)
  | None =>
      if (Buffered b =? 0)%nat then (None, b)
      else
        let '(n, err, s) := sink_Write (wr b) (buf b) in
        match err with
        | Some e =>
            (Some e, {| wr := s; buf := skipn n (buf b); size := size b; werr := Some e |})
        | None =>
            (None, {| wr := s; buf := []; size := size b; werr := None |})
        end
  end.

(** The loop of [bufio.Writer.Write]:
    [for len(p) > b.Available() && b.err == nil { ... }]. *)
Definition write_more (b : Writer) (p : list byte) : bool :=
  (Available b <? length p)%nat &&
  match werr b with None => true | Some _ => false end.

(** One pass through the loop body: with an empty buffer the data go
    straight to the sink, otherwise the buffer is filled up and flushed. *)
Definition write_pass (b : Writer) (p : list byte) : Writer * list byte :=
  if (Buffered b =? 0)%nat then
    let '(n, err, s) := sink_Write (wr b) p in
    ({| wr := s; buf := buf b; size := size b; werr := err |}, skipn n p)
  else
    let n := Available b in
    let b1 := {| wr := wr b; buf := buf b ++ firstn n p; size := size b; werr := werr b |} in
    (snd (bufio_Flush b1), skipn n p).

(** A pass when the loop condition holds, nothing otherwise. *)
Definition guarded_pass (b : Writer) (p : list byte) : Writer * list byte :=
  if write_more b p then write_pass b p else (b, p).

(** The loop runs at most twice: a pass either empties [p] or sets [b.err]
    (first branch), or leaves the buffer empty (second branch), and a pass
    that starts with an empty buffer is of the first kind.  Lemma
    [write_loop_ends] below shows that the condition of the loop is false
    after [write_loop]. *)
Definition write_loop (b : Writer) (p : list byte) : Writer * list byte :=
  let '(b1, p1) := guarded_pass b p in guarded_pass b1 p1.

Definition bufio_Write (b : Writer) (p : list byte) : option error * Writer :=
  let '(b2, p2) := write_loop b p in
  (* if b.err != nil { return nn, b.err }; n := copy(b.buf[b.n:], p) *)
  match werr b2 with
  | Some e => (Some e, b2)
  | None =>
      (None, {| wr := wr b2; buf := buf b2 ++ firstn (Available b2) p2;
                size := size b2; werr := None |})
  end.

(** [binary.Write(w, binary.BigEndian, data)] for the three kinds of data the
    encoder passes: the bytes of [data] go to [w] in one [Write]. *)
Definition encode_uint8 (v : byte) : list byte := [v].

Definition encode_Header (h : Header) : list byte :=
  BigEndian.PutUint32 (Seq h) ++ BigEndian.PutUint16 (ErrCode h) ++
  BigEndian.PutUint32 (PacketLen h) ++ [Version h] ++
  BigEndian.PutUint16 (CheckSum h).

Definition binary_Write (data : list byte) : M Writer unit :=
  fun w =>
    match bufio_Write w data with
    | (None, w') => (Ok tt, w')
    | (Some e, w') => (Err e, w')
    end.

(** ** io.Reader, bufio.Reader and io.ReadFull *)

(** The byte source behind the decoder: the bytes it still delivers, and the
    error it reports once they are used up ([EOF] for a closed stream).  The
    read-ahead buffer of [bufio.Reader] holds a prefix of [incoming] and is
    not visible to its caller. *)
Record Source : Type := {
  incoming : list byte;
  closing : error
}.

Record Reader : Type := {
  rd : Source;
  rsize : Z
}.

Definition minReadBufferSize : Z := 16.

Definition NewReaderSize (r : Source) (sz : Z) : Reader :=
  {| rd := r; rsize := if sz <? minReadBufferSize then minReadBufferSize else sz |}.

(** The error of a read that got [got] and then met the source's error [e]:
    [if n > 0 && err == EOF { err = ErrUnexpectedEOF }]. *)
Definition short_read (got : list byte) (e : error) : error :=
  match got with
  | [] => e
  | _ :: _ =>
      match e with
      | EOF => ErrUnexpectedEOF
      | _ => e
      end
  end.

(** [io.ReadFull(r, buf)] with [len(buf) = n]: exactly [n] bytes, or an
    error.  No byte read and the source's error is returned as it is; some
    but fewer than [n] bytes read and [EOF] becomes [ErrUnexpectedEOF].  An
    empty [buf] succeeds without touching the source. *)
Definition io_ReadFull (n : Z) : M Reader (list byte) :=
  fun r =>
    let src := rd r in
    if n <=? 0 then (Ok [], r)
    else if n <=? Z.of_nat (length (incoming src)) then
      (Ok (firstn (Z.to_nat n) (incoming src)),
       {| rd := {| incoming := skipn (Z.to_nat n) (incoming src);
                   closing := closing src |};
          rsize := rsize r |})
    else
      (Err (short_read (incoming src) (closing src)),
       {| rd := {| incoming := []; closing := closing src |};
          rsize := rsize r |}).

(** [binary.Read(r, binary.BigEndian, data)] for the three kinds of data the
    decoder passes. *)
Definition binary_Read_uint8 : M Reader byte :=
  bs <- io_ReadFull 1 ;; ret (nth 0 bs Byte.x00).

(* dataSize of struct Header: the sum of the sizes of its fields *)
Definition dataSize_Header : Z := 4 + 2 + 4 + 1 + 2.

Definition decode_Header (bs : list byte) : Header :=
  {| Seq := BigEndian.Uint32 bs;
     ErrCode := BigEndian.Uint16 (skipn 4 bs);
     PacketLen := BigEndian.Uint32 (skipn 6 bs);
     Version := nth 10 bs Byte.x00;
     CheckSum := BigEndian.Uint16 (skipn 11 bs) |}.

Definition binary_Read_Header : M Reader Header :=
  bs <- io_ReadFull dataSize_Header ;; ret (decode_Header bs).

Definition binary_Read_bytes (n : Z) : M Reader (list byte) :=
  io_ReadFull n.

(** ** The encoder *)

Record CustomPacketEncoder : Type := {
  bw : option Writer   (* *bufio.Writer *)
}.

Record CustomPacketDecoder : Type := {
  br : option Reader   (* *bufio.Reader *)
}.

(* The two constructors return a nil error in every case; only the codec
   they build is kept here. *)
Definition defaultMessageEncoder (w : Sink) (bufferSize : Z) : CustomPacketEncoder :=
  {| bw := Some (NewWriterSize w bufferSize) |}.

Definition defaultMessageDecoder (r : Source) (bufferSize : Z) : CustomPacketDecoder :=
  {| br := Some (NewReaderSize r bufferSize) |}.

(** A call on [e.bw]. *)
Definition on_bw {A : Type} (m : M Writer A) : M CustomPacketEncoder A :=
  fun e =>
    match bw e with
    | None => (Panic nil_dereference, e)
    | Some w => let '(r, w') := m w in (r, {| bw := Some w' |})
    end.

(** A call on [d.br]. *)
Definition on_br {A : Type} (m : M Reader A) : M CustomPacketDecoder A :=
  fun d =>
    match br d with
    | None => (Panic nil_dereference, d)
    | Some r => let '(res, r') := m r in (res, {| br := Some r' |})
    end.

Definition Encode (p : Packet) : M CustomPacketEncoder unit :=
  match p with
  | ptrCustomPacket target =>
      match target with
      | None => fun e => (Panic nil_dereference, e)
      | Some packet =>
          on_bw (binary_Write (encode_uint8 (SOH packet))) ;;;
          on_bw (binary_Write (encode_Header packet)) ;;;
          on_bw (binary_Write (Body packet)) ;;;
          on_bw (binary_Write (encode_uint8 (EOH packet))) ;;;
          ret tt
      end
  | _ => fun e => (Err (errors_New "SelfPacketEncoder Encode occur error"), e)
  end.

Definition Flush : M CustomPacketEncoder unit :=
  fun e =>
    match bw e with
    | Some w =>
        match bufio_Flush w with
        | (Some err, w') => (Err err, {| bw := Some w' |})
        | (None, w') => (Ok tt, {| bw := Some w' |})
        end
    | None => (Ok tt, e)
    end.

(** ** The decoder *)

(* bodyLen := packet.PacketLen - HeaderLen - SohLen - EohLen, in uint32 *)
Definition bodyLen (h : Header) : Z :=
  sub32 (sub32 (sub32 (PacketLen h) HeaderLen) SohLen) EohLen.

Definition Decode : M CustomPacketDecoder Packet :=
  soh <- on_br binary_Read_uint8 ;;
  hdr <- on_br binary_Read_Header ;;
  (* packet.Body = make([]byte, bodyLen) *)
  body <- on_br (binary_Read_bytes (bodyLen hdr)) ;;
  eoh <- on_br binary_Read_uint8 ;;
  ret (ptrCustomPacket
         (Some {| SOH := soh; embedded := hdr; Body := body; EOH := eoh |})).

(** ** Observations used in the statements *)

(** The bytes an encoder has produced so far, in order: those that reached
    the sink followed by those still in the buffer. *)
Definition stream (w : Writer) : list byte := received (wr w) ++ buf w.

(** The bytes that reached the sink of an encoder. *)
Definition transmitted (e : CustomPacketEncoder) : list byte :=
  match bw e with
  | Some w => received (wr w)
  | None => []
  end.

(** The bytes a decoder has not consumed yet. *)
Definition unread (d : CustomPacketDecoder) : list byte :=
  match br d with
  | Some r => incoming (rd r)
  | None => []
  end.

(** The frame of a packet: what [Encode] hands to the writer. *)
Definition frame (p : CustomPacket) : list byte :=
  encode_uint8 (SOH p) ++ encode_Header p ++ Body p ++ encode_uint8 (EOH p).

(** A sink that never fails and has received nothing yet. *)
Definition openSink : Sink := {| received := []; quota := None |}.

(** A decoder on a source that delivers [bs] and then reports [c]. *)
Definition decoderOn (bs : list byte) (c : error) (bufferSize : Z) : CustomPacketDecoder :=
  defaultMessageDecoder {| incoming := bs; closing := c |} bufferSize.

Definition hello : list byte :=
  [Byte.x68; Byte.x65; Byte.x6c; Byte.x6c; Byte.x6f].

Definition samplePacket : CustomPacket :=
  {| SOH := Byte.x01;
     embedded := {| Seq := 7; ErrCode := 0; PacketLen := 21;
                    Version := Byte.x01; CheckSum := 0 |};
     Body := hello;
     EOH := Byte.x04 |}.

(** A writer with no pending error on a sink that never fails. *)
Definition healthy (w : Writer) : Prop :=
  werr w = None /\ quota (wr w) = None.

(** ** Notions of the specification *)

(** The declared frame length agrees with the overhead constants shared by
    encoder and decoder: [PacketLen = HeaderLen + SohLen + EohLen + len(Body)]. *)
Definition consistent (p : CustomPacket) : Prop :=
  PacketLen p = HeaderLen + SohLen + EohLen + Z.of_nat (length (Body p)).

(** A field of [width] bytes in big-endian order: its base-256 digits, the
    most significant one first. *)
Fixpoint big_endian (width : nat) (v : Z) : list byte :=
  match width with
  | O => []
  | S n => byte.of_Z (v / 256 ^ Z.of_nat n) :: big_endian n v
  end.

(** The wire format of section 6 of the specification. *)
Definition wire_format (p : CustomPacket) : list byte :=
  [SOH p] ++ big_endian 4 (Seq p) ++ big_endian 2 (ErrCode p) ++
  big_endian 4 (PacketLen p) ++ [Version p] ++ big_endian 2 (CheckSum p) ++
  Body p ++ [EOH p].

(** Byte [i] of [l] replaced by [b]. *)
Definition corrupt (i : nat) (b : byte) (l : list byte) : list byte :=
  firstn i l ++ b :: skipn (S i) l.

Definition with_Body (p : CustomPacket) (body : list byte) : CustomPacket :=
  {| SOH := SOH p; embedded := embedded p; Body := body; EOH := EOH p |}.

(** The decoder rejects the stream with an error of its own, having read the
    start sentinel and the header and nothing of what follows them. *)
Definition fails_fast_malformed (d : CustomPacketDecoder) : Prop :=
  exists e d',
    Decode d = (Err e, d') /\ is_io_error e = false /\
    unread d' = skipn 14 (unread d).

(** ** Sample values *)

(** A header that declares a frame length of 0, with three more bytes
    behind it on the wire. *)
Definition shortHeader : Header :=
  {| Seq := 1; ErrCode := 0; PacketLen := 0; Version := Byte.x01; CheckSum := 0 |}.

Definition shortStream : list byte :=
  Byte.x01 :: encode_Header shortHeader ++ [Byte.xaa; Byte.xbb; Byte.xcc].

(** A packet whose body has 2^32 - 16 bytes and whose declared length has
    wrapped around to 0. *)
Definition wrappedPacket : CustomPacket :=
  {| SOH := Byte.x01;
     embedded := shortHeader;
     Body := repeat Byte.x00 (Z.to_nat (2 ^ 32 - 16));
     EOH := Byte.x04 |}.

(** Another implementation of the [Packet] interface, as a user of the
    package may write one. *)
Record HeartBeat : Type := { beat : Z; status : Z }.

#[export] Instance HeartBeat_methods : PacketMethods HeartBeat := {
  ID h := beat h;
  SetErrCode h code := {| beat := beat h; status := code |}
}.

(** ** Sequences of calls *)

(** A call on an encoder. *)
Inductive call : Type :=
| CallEncode (p : CustomPacket)
| CallFlush.

Definition do_call (k : call) : M CustomPacketEncoder unit :=
  match k with
  | CallEncode p => Encode (ptrCustomPacket (Some p))
  | CallFlush => Flush
  end.

(** The calls one after the other, as long as they return nil. *)
Fixpoint do_calls (ks : list call) : M CustomPacketEncoder unit :=
  match ks with
  | [] => ret tt
  | k :: ks' => do_call k ;;; do_calls ks'
  end.

(** The frames of the packets encoded by [ks], in order. *)
Fixpoint frames_of (ks : list call) : list byte :=
  match ks with
  | [] => []
  | CallEncode p :: ks' => frame p ++ frames_of ks'
  | CallFlush :: ks' => frames_of ks'
  end.

(** [n] calls of [Decode], as long as they return a packet. *)
Fixpoint Decode_times (n : nat) : M CustomPacketDecoder (list Packet) :=
  match n with
  | O => ret []
  | S n' => p <- Decode ;; ps <- Decode_times n' ;; ret (p :: ps)
  end.

(** The buffer of the encoder holds no more than its size. *)
Definition within_capacity (e : CustomPacketEncoder) : Prop :=
  match bw e with
  | Some w => (length (buf w) <= size w)%nat
  | None => True
  end.

(** [m] hands a prefix of [data] on to the writer of the encoder, all of it
    when it returns nil; an error it returns is stored in the writer; it does
    not panic; and it keeps the buffer within its size. *)
Definition hands_on (data : list byte) (m : M CustomPacketEncoder unit) : Prop :=
  forall w : Writer,
  exists r w' written rest,
    m {| bw := Some w |} = (r, {| bw := Some w' |}) /\
    data = written ++ rest /\
    stream w' = stream w ++ written /\
    size w' = size w /\
    match r with
    | Ok _ => rest = [] /\ werr w' = None /\ werr w = None
    | Err e => werr w' = Some e
    | Panic _ => False
    end /\
    ((length (buf w) <= size w)%nat -> (length (buf w') <= size w')%nat).


(** * Package mongodb: the configuration and start of [MongoClient]

    The MongoDB driver and the ini library are outside the repository: a
    connection attempt and the reading of an ini file are parameters of the
    model ([mongo_Connect], [ini_Load] and the three key readers). *)

Definition defaultConf : string := "conf/conf.ini".

Record MongoConfig : Type := {
  Hosts : list string;
  User : string;
  Password : string;
  DataBase : string;
  ReplicaSet : string;
  ConnTimeoutMs : Z;
  SocketTimeoutMs : Z;
  WTimeoutMs : Z;
  MaxPoolSize : Z;
  MinPoolSize : Z;
  MaxIdleTimeMs : Z;
  W : Z;
  Journal : string;
  Safe : string
}.

(* fmt.Sprintf("%d", n) *)
Definition Sprintf_d (n : Z) : string := NilZero.string_of_int (Z.to_int n).

(* strings.HasSuffix(s, suffix):
   len(s) >= len(suffix) && s[len(s)-len(suffix):] == suffix *)
Definition HasSuffix (s suffix : string) : bool :=
  (String.length suffix <=? String.length s)%nat &&
  String.eqb (substring (String.length s - String.length suffix)
                        (String.length suffix) s) suffix.

(* c.DataBase = "admin" when it is empty; [c] is a pointer, the caller sees
   the change. *)
Definition defaulted (c : MongoConfig) : MongoConfig :=
  if (String.length (DataBase c) =? 0)%nat then
    {| Hosts := Hosts c; User := User c; Password := Password c;
       DataBase := "admin"; ReplicaSet := ReplicaSet c;
       ConnTimeoutMs := ConnTimeoutMs c; SocketTimeoutMs := SocketTimeoutMs c;
       WTimeoutMs := WTimeoutMs c; MaxPoolSize := MaxPoolSize c;
       MinPoolSize := MinPoolSize c; MaxIdleTimeMs := MaxIdleTimeMs c;
       W := W c; Journal := Journal c; Safe := Safe c |}
  else c.

(* optionStr += fmt.Sprintf(...) under its condition *)
Definition add_text (cond : bool) (item : string) (optionStr : string) : string :=
  if cond then (optionStr ++ item)%string else optionStr.

Definition optionStr (c : MongoConfig) : string :=
  let optionStr := ""%string in
  let optionStr := add_text (0 <? String.length (ReplicaSet c))%nat
                     ("replicaSet=" ++ ReplicaSet c) optionStr in
  let optionStr := add_text (0 <? ConnTimeoutMs c)
                     ("connectTimeoutMs=" ++ Sprintf_d (ConnTimeoutMs c)) optionStr in
  let optionStr := add_text (0 <? SocketTimeoutMs c)
                     ("socketTimeoutMs=" ++ Sprintf_d (SocketTimeoutMs c)) optionStr in
  let optionStr := add_text (0 <? WTimeoutMs c)
                     ("wTimeoutMs=" ++ Sprintf_d (WTimeoutMs c)) optionStr in
  let optionStr := add_text (0 <? MaxPoolSize c)
                     ("maxpoolSize=" ++ Sprintf_d (MaxPoolSize c)) optionStr in
  let optionStr := add_text (0 <? MinPoolSize c)
                     ("minpoolSize=" ++ Sprintf_d (MinPoolSize c)) optionStr in
  let optionStr := add_text (0 <? MaxIdleTimeMs c)
                     ("maxIdleTimeMs=" ++ Sprintf_d (MaxIdleTimeMs c)) optionStr in
  let optionStr := add_text (0 <? W c)
                     ("w=" ++ Sprintf_d (W c)) optionStr in
  let optionStr := add_text (0 <? String.length (Journal c))%nat
                     ("journal=" ++ Journal c) optionStr in
  let optionStr := add_text (0 <? String.length (Safe c))%nat
                     ("safe=" ++ Safe c) optionStr in
  optionStr.

(** The connection string [initWithMongoConfig] builds from a configuration
    whose [DataBase] has been defaulted. *)
Definition connStr (c : MongoConfig) : string :=
  let hostStr := String.concat "," (Hosts c) in
  if (0 <? String.length (User c))%nat && (0 <? String.length (Password c))%nat
  then ("mongodb://" ++ User c ++ ":" ++ Password c ++ "@" ++ hostStr ++ "/"
          ++ DataBase c ++ "?" ++ optionStr c)%string
  else ("mongodb://" ++ hostStr ++ "/" ++ DataBase c ++ "?" ++ optionStr c)%string.

(** The options that are set, each as [key=value], in the order in which
    [initWithMongoConfig] looks at them. *)
Definition option_item (cond : bool) (text : string) : list string :=
  if cond then [text] else [].

Definition option_items (c : MongoConfig) : list string :=
  option_item (0 <? String.length (ReplicaSet c))%nat ("replicaSet=" ++ ReplicaSet c) ++
  option_item (0 <? ConnTimeoutMs c) ("connectTimeoutMs=" ++ Sprintf_d (ConnTimeoutMs c)) ++
  option_item (0 <? SocketTimeoutMs c) ("socketTimeoutMs=" ++ Sprintf_d (SocketTimeoutMs c)) ++
  option_item (0 <? WTimeoutMs c) ("wTimeoutMs=" ++ Sprintf_d (WTimeoutMs c)) ++
  option_item (0 <? MaxPoolSize c) ("maxpoolSize=" ++ Sprintf_d (MaxPoolSize c)) ++
  option_item (0 <? MinPoolSize c) ("minpoolSize=" ++ Sprintf_d (MinPoolSize c)) ++
  option_item (0 <? MaxIdleTimeMs c) ("maxIdleTimeMs=" ++ Sprintf_d (MaxIdleTimeMs c)) ++
  option_item (0 <? W c) ("w=" ++ Sprintf_d (W c)) ++
  option_item (0 <? String.length (Journal c))%nat ("journal=" ++ Journal c) ++
  option_item (0 <? String.length (Safe c))%nat ("safe=" ++ Safe c).

(** What the model needs of the driver and of the ini library. *)
Record Driver (Client IniFile : Type) : Type := {
  (* mongo.Connect(ctx, options.Client().ApplyURI(connStr)) *)
  mongo_Connect : string -> error + Client;
  (* ini.Load(path) *)
  ini_Load : string -> error + IniFile;
  (* f.Section(section).Key(key).String() *)
  key_String : IniFile -> string -> string -> string;
  (* f.Section(section).Key(key).Strings(",") *)
  key_Strings : IniFile -> string -> string -> list string;
  (* f.Section(section).Key(key).Int64() or .Int(), with the error dropped *)
  key_Int : IniFile -> string -> string -> Z
}.

Arguments mongo_Connect {Client IniFile} d _.
Arguments ini_Load {Client IniFile} d _.
Arguments key_String {Client IniFile} d _ _ _.
Arguments key_Strings {Client IniFile} d _ _ _.
Arguments key_Int {Client IniFile} d _ _ _.

Section Driver.

(* mongo.Client and ini.File *)
Context {Client IniFile : Type}.
Variable drv : Driver Client IniFile.

Record MongoClient : Type := {
  DbConfig : option MongoConfig;   (* *MongoConfig *)
  DbConf : option IniFile;         (* *ini.File *)
  DbConfPath : string;
  mDataBase : string;              (* the field DataBase of MongoClient *)
  client : option Client;
  startOnce : bool;                (* sync.Once: done *)
  closeOnce : bool
}.

Definition set_client (m : MongoClient) (cl : Client) : MongoClient :=
  {| DbConfig := DbConfig m; DbConf := DbConf m; DbConfPath := DbConfPath m;
     mDataBase := mDataBase m; client := Some cl;
     startOnce := startOnce m; closeOnce := closeOnce m |}.

Definition set_DbConfig (m : MongoClient) (c : MongoConfig) : MongoClient :=
  {| DbConfig := Some c; DbConf := DbConf m; DbConfPath := DbConfPath m;
     mDataBase := mDataBase m; client := client m;
     startOnce := startOnce m; closeOnce := closeOnce m |}.

Definition set_DbConfPath (m : MongoClient) (path : string) : MongoClient :=
  {| DbConfig := DbConfig m; DbConf := DbConf m; DbConfPath := path;
     mDataBase := mDataBase m; client := client m;
     startOnce := startOnce m; closeOnce := closeOnce m |}.

Definition set_startOnce (m : MongoClient) : MongoClient :=
  {| DbConfig := DbConfig m; DbConf := DbConf m; DbConfPath := DbConfPath m;
     mDataBase := mDataBase m; client := client m;
     startOnce := true; closeOnce := closeOnce m |}.

(** The result is the error, the client and the configuration [c] points to
    after the call. *)
Definition initWithMongoConfig (m : MongoClient) (c : MongoConfig)
  : option error * MongoClient * MongoConfig :=
  if (length (Hosts c) =? 0)%nat then
    (Some (errors_New "mongo Config No Hosts"), m, c)
  else
    let c := defaulted c in
    match mongo_Connect drv (connStr c) with
    | inl err => (Some err, m, c)
    | inr cl => (None, set_client m cl, c)
    end.

Definition initDbs (m : MongoClient) (f : IniFile) (db : string)
  : option error * MongoClient :=
  let c := ("Mongo" ++ "." ++ db)%string in
  let mc :=
    {| Hosts := key_Strings drv f c "hosts";
       User := key_String drv f c "user";
       Password := key_String drv f c "password";
       DataBase := db;
       ReplicaSet := key_String drv f c "replicaSet";
       ConnTimeoutMs := key_Int drv f c "connTimeoutMs";
       SocketTimeoutMs := key_Int drv f c "socketTimeoutMs";
       WTimeoutMs := key_Int drv f c "wTimeoutMs";
       MaxPoolSize := key_Int drv f c "maxPoolSize";
       MinPoolSize := key_Int drv f c "minPoolSize";
       MaxIdleTimeMs := key_Int drv f c "maxIdleTimeMs";
       W := key_Int drv f c "w";
       Journal := key_String drv f c "journal";
       Safe := key_String drv f c "safe" |} in
  let '(err, m', _) := initWithMongoConfig m mc in
  (err, m').

Definition initObjForMongoDb (m : MongoClient) (filePath : string)
  : option error * MongoClient :=
  let dbConfRealPath := filePath in
  if String.eqb dbConfRealPath "" then
    (Some (errors_New "dbConf not set in g_cfg"), m)
  else if negb (HasSuffix dbConfRealPath ".ini") then
    (Some (errors_New "dbConf not an ini file"), m)
  else
    match ini_Load drv dbConfRealPath with
    | inl err => (Some err, m)
    | inr dbConf => initDbs m dbConf (mDataBase m)
    end.

(** [m.startOnce.Do(func() { ... })]: the body runs on the first call only;
    [err] is a local of [Start], nil when the body does not run. *)
Definition Start (m : MongoClient) : option error * MongoClient :=
  if startOnce m then (None, m)
  else
    let m := set_startOnce m in
    match DbConfig m with
    | Some c =>
        let '(err, m', c') := initWithMongoConfig m c in
        (err, set_DbConfig m' c')
    | None =>
        match DbConf m with
        | Some f => initDbs m f (mDataBase m)
        | None =>
            let m :=
              if String.eqb (DbConfPath m) "" then set_DbConfPath m defaultConf
              else m in
            initObjForMongoDb m (DbConfPath m)
        end
    end.

End Driver.




(** ** Sample values for package mongodb *)

Definition sampleConfig : MongoConfig :=
  {| Hosts := ["10.0.0.1:27017"; "10.0.0.2:27017"]%string;
     User := "root"; Password := ""; DataBase := "";
     ReplicaSet := "rs0"; ConnTimeoutMs := 400; SocketTimeoutMs := 0;
     WTimeoutMs := 0; MaxPoolSize := 0; MinPoolSize := 0; MaxIdleTimeMs := 0;
     W := 0; Journal := ""; Safe := "" |}.

(** A driver that connects to everything and an ini library that finds no
    file. *)
Definition sampleDriver : Driver unit unit :=
  {| mongo_Connect := fun _ => inr tt;
     ini_Load := fun _ => inl (TransportError "open: no such file or directory");
     key_String := fun _ _ _ => ""%string;
     key_Strings := fun _ _ _ => [];
     key_Int := fun _ _ _ => 0 |}.

Definition configuredClient : @MongoClient unit unit :=
  {| DbConfig := Some sampleConfig; DbConf := None; DbConfPath := "";
     mDataBase := ""; client := None; startOnce := false; closeOnce := false |}.

Definition bareClient : @MongoClient unit unit :=
  {| DbConfig := None; DbConf := None; DbConfPath := "";
     mDataBase := "orders"; client := None; startOnce := false;
     closeOnce := false |}.

(** The header of a frame that declares its true length on the wire,
    13 + 1 + 1 + 5 = 20, for the body [hello]. *)
Definition trueLengthHeader : Header :=
  {| Seq := 7; ErrCode := 0; PacketLen := 20; Version := Byte.x01; CheckSum := 0 |}.

(** A writer whose sink has failed. *)
Definition brokenWriter : Writer :=
  {| wr := {| received := []; quota := Some (0%nat, TransportError "broken pipe") |};
     buf := [Byte.x01]; size := 4; werr := Some (TransportError "broken pipe") |}.

(** * Properties *)

(** ** Big-endian fields *)

Section BigEndianFacts.

Lemma Uint16_PutUint16 (v : Z) (rest : list byte) :
  is_u16 v -> BigEndian.Uint16 (BigEndian.PutUint16 v ++ rest) = v.
Proof.
  unfold is_u16; intros Hv.
  unfold BigEndian.Uint16, BigEndian.PutUint16, BigEndian.at_.
  cbn [app nth].
  rewrite !byte.unsigned_of_Z. unfold byte.wrap.
  rewrite <- !Z.land_ones by lia.
  rewrite <- (Z.mod_small v (2 ^ 16)) at 3 by lia.
  rewrite <- Z.land_ones by lia.
  Z.bitblast.
Qed.

Lemma Uint32_PutUint32 (v : Z) (rest : list byte) :
  is_u32 v -> BigEndian.Uint32 (BigEndian.PutUint32 v ++ rest) = v.
Proof.
  unfold is_u32; intros Hv.
  unfold BigEndian.Uint32, BigEndian.PutUint32, BigEndian.at_.
  cbn [app nth].
  rewrite !byte.unsigned_of_Z. unfold byte.wrap.
  rewrite <- !Z.land_ones by lia.
  rewrite <- (Z.mod_small v (2 ^ 32)) at 5 by lia.
  rewrite <- Z.land_ones by lia.
  Z.bitblast.
Qed.

(** The bytes of a field are its base-256 digits, most significant first. *)
Lemma PutUint16_digits (v : Z) :
  BigEndian.PutUint16 v =
  [byte.of_Z (v / 256); byte.of_Z v].
Proof.
  unfold BigEndian.PutUint16.
  rewrite Z.shiftr_div_pow2 by lia. reflexivity.
Qed.

Lemma PutUint32_digits (v : Z) :
  BigEndian.PutUint32 v =
  [byte.of_Z (v / 256 ^ 3); byte.of_Z (v / 256 ^ 2);
   byte.of_Z (v / 256); byte.of_Z v].
Proof.
  unfold BigEndian.PutUint32.
  rewrite !Z.shiftr_div_pow2 by lia. reflexivity.
Qed.

Lemma length_encode_Header (h : Header) :
  length (encode_Header h) = 13%nat.
Proof. reflexivity. Qed.

Lemma decode_encode_Header (h : Header) (rest : list byte) :
  wf_Header h -> decode_Header (encode_Header h ++ rest) = h.
Proof.
  intros (Hs & He & Hl & Hc). destruct h as [s e l v c].
  unfold decode_Header, encode_Header.
  cbn [Seq ErrCode PacketLen Version CheckSum] in *.
  rewrite <- !app_assoc.
  rewrite Uint32_PutUint32 by assumption.
  change (skipn 4 (BigEndian.PutUint32 s ++ ?x)) with x.
  rewrite Uint16_PutUint16 by assumption.
  change (skipn 6 (BigEndian.PutUint32 s ++ BigEndian.PutUint16 e ++ ?x)) with x.
  rewrite Uint32_PutUint32 by assumption.
  change (skipn 11 (BigEndian.PutUint32 s ++ BigEndian.PutUint16 e ++
                    BigEndian.PutUint32 l ++ [v] ++ ?x)) with x.
  rewrite Uint16_PutUint16 by assumption.
  reflexivity.
Qed.

End BigEndianFacts.

(** ** The monad *)

Section MonadFacts.
Context {S A B : Type}.

Lemma bind_Ok (m : M S A) (k : A -> M S B) (s s' : S) (a : A) :
  m s = (Ok a, s') -> bind m k s = k a s'.
Proof. unfold bind; intros ->; reflexivity. Qed.

Lemma bind_Err (m : M S A) (k : A -> M S B) (s s' : S) (e : error) :
  m s = (Err e, s') -> bind m k s = (Err e, s').
Proof. unfold bind; intros ->; reflexivity. Qed.

Lemma bind_Panic (m : M S A) (k : A -> M S B) (s s' : S) (w : string) :
  m s = (Panic w, s') -> bind m k s = (Panic w, s').
Proof. unfold bind; intros ->; reflexivity. Qed.

End MonadFacts.

Arguments bind_Ok {S A B m} k {s s' a} _.
Arguments bind_Err {S A B m} k {s s' e} _.
Arguments bind_Panic {S A B m} k {s s' w} _.

Ltac tidy :=
  repeat first
    [ progress cbn [app]
    | rewrite <- app_assoc
    | rewrite firstn_skipn
    | rewrite app_nil_r
    | rewrite firstn_nil
    | rewrite skipn_all ];
  try reflexivity.

(** ** Writing *)

Section WriterFacts.

Lemma bufio_Flush_healthy (w : Writer) :
healthy w ->
bufio_Flush w =
(None, {| wr := {| received := stream w; quota := None |};
          buf := []; size := size w; werr := None |}).
Proof.
destruct w as [[rcv q] b n e]; unfold healthy, stream; cbn.
intros [-> ->]. unfold bufio_Flush, Buffered, sink_Write; cbn.
destruct b as [| x b]; cbn; [rewrite app_nil_r |]; reflexivity.
Qed.

Lemma bufio_Write_healthy (w : Writer) (p : list byte) :
healthy w ->
exists w',
  bufio_Write w p = (None, w') /\ healthy w' /\
  stream w' = stream w ++ p /\ size w' = size w.
Proof.
destruct w as [[rcv q] b n e]; unfold healthy, stream; cbn.
intros [-> ->].
unfold bufio_Write, write_loop, guarded_pass, write_more, Available;
  cbn [size buf werr andb].
rewrite andb_true_r.
destruct (Nat.ltb_spec (n - length b) (length p)) as [Hbig | Hfit].
- unfold write_pass, Buffered, Available; cbn [size buf wr werr].
  destruct b as [| x b].
  + unfold sink_Write; cbn [length Nat.eqb quota received].
    rewrite skipn_all. cbn.
    eexists; repeat split; cbn; tidy.
  + cbn [length Nat.eqb].
    rewrite bufio_Flush_healthy by (split; reflexivity).
    cbn [snd size buf werr wr length Nat.sub andb]. 
    unfold stream; cbn [received wr buf].
    rewrite Nat.sub_0_r.
    destruct (Nat.ltb_spec n (length (skipn (n - S (length b)) p))) as [Hbig2 | Hfit2].
    * unfold sink_Write; cbn [length Nat.eqb quota received].
      rewrite skipn_all. cbn.
      eexists; repeat split; cbn; tidy.
    * cbn [werr buf size wr]. eexists; repeat split; cbn [werr buf size wr received quota].
      unfold Available; cbn [size buf length].
      rewrite Nat.sub_0_r, (firstn_all2 _ Hfit2). tidy.
- cbn [werr buf size wr].
  destruct (Nat.ltb_spec (n - length b) (length p)) as [Hbig | _]; [lia |].
  cbn [werr buf size wr].
  eexists; repeat split; cbn.
  rewrite firstn_all2 by assumption. tidy.
Qed.

Lemma bufio_Write_fits (w : Writer) (p : list byte) :
werr w = None ->
(length (buf w) + length p <= size w)%nat ->
bufio_Write w p =
(None, {| wr := wr w; buf := buf w ++ p; size := size w; werr := None |}).
Proof.
destruct w as [s b n e]; cbn. intros -> Hfit.
unfold bufio_Write, write_loop, guarded_pass, write_more, Available;
  cbn [size buf werr andb].
destruct (Nat.ltb_spec (n - length b) (length p)) as [Hbig | _]; [lia |].
cbn [andb werr buf size wr].
destruct (Nat.ltb_spec (n - length b) (length p)) as [Hbig | _]; [lia |].
cbn [andb werr buf size wr].
rewrite firstn_all2 by lia. reflexivity.
Qed.

Lemma sink_Write_None (s : Sink) (p : list byte) (n : nat) (s' : Sink) :
sink_Write s p = (n, None, s') ->
n = length p /\ received s' = received s ++ p.
Proof.
unfold sink_Write. destruct (quota s) as [[k e] |].
- destruct (Nat.leb_spec (length p) k) as [Hle | Hgt]; intros H; inversion H; subst; cbn; auto.
- intros H; inversion H; subst; cbn; auto.
Qed.

Lemma sink_Write_Some (s : Sink) (p : list byte) (n : nat) (e : error) (s' : Sink) :
sink_Write s p = (n, Some e, s') ->
(n < length p)%nat /\ received s' = received s ++ firstn n p.
Proof.
unfold sink_Write. destruct (quota s) as [[k e'] |].
- destruct (Nat.leb_spec (length p) k) as [Hle | Hgt]; intros H; inversion H; subst; cbn; auto.
- intros H; inversion H.
Qed.

(** Flushing never loses or reorders bytes, whether it succeeds or not. *)
Lemma bufio_Flush_stream (w : Writer) :
stream (snd (bufio_Flush w)) = stream w /\
size (snd (bufio_Flush w)) = size w /\
(werr (snd (bufio_Flush w)) = None -> buf (snd (bufio_Flush w)) = [] /\ werr w = None).
Proof.
unfold bufio_Flush, Buffered.
destruct (werr w) as [e |] eqn:He; cbn [snd].
- rewrite He. repeat split; discriminate.
- destruct (Nat.eqb_spec (length (buf w)) 0) as [Hz | Hnz]; cbn [snd].
  + repeat split. destruct (buf w); [reflexivity | discriminate].
  + destruct (sink_Write (wr w) (buf w)) as [[n err] s] eqn:Hs.
    destruct err as [e |]; cbn [snd]; unfold stream; cbn [wr buf size werr].
    * apply sink_Write_Some in Hs as [_ ->].
      rewrite <- app_assoc, firstn_skipn. repeat split; discriminate.
    * apply sink_Write_None in Hs as [_ ->].
      rewrite app_nil_r. repeat split.
Qed.

Lemma write_pass_stream (w : Writer) (p : list byte) :
werr w = None ->
let '(w', p') := write_pass w p in
size w' = size w /\
match werr w' with
| None => stream w' ++ p' = stream w ++ p /\
          (buf w' = [] /\ (buf w = [] -> p' = []))
| Some _ => True
end.
Proof.
intros He. unfold write_pass, Buffered.
destruct (Nat.eqb_spec (length (buf w)) 0) as [Hz | Hnz].
- destruct (sink_Write (wr w) p) as [[n err] s] eqn:Hs.
  cbn [size werr]. split; [reflexivity |].
  destruct err as [e |]; [exact I |].
  apply sink_Write_None in Hs as [-> Hr].
  destruct (buf w) eqn:Hb; [| discriminate].
  unfold stream; cbn [wr buf]. rewrite Hr, Hb, skipn_all, !app_nil_r.
  repeat split.
- pose proof (bufio_Flush_stream
                {| wr := wr w; buf := buf w ++ firstn (Available w) p;
                   size := size w; werr := werr w |}) as (Hst & Hsz & Hnone).
  split; [exact Hsz |].
  destruct (werr (snd (bufio_Flush _))) eqn:He'; [exact I |].
  destruct (Hnone eq_refl) as [Hb _].
  rewrite Hst. unfold stream; cbn [wr buf].
  rewrite <- !app_assoc, firstn_skipn.
  repeat split; [exact Hb |].
  intros Hnil. rewrite Hnil in Hnz. contradiction.
Qed.

Lemma write_more_false (w : Writer) (p : list byte) :
write_more w p = false -> werr w = None ->
(length p <= Available w)%nat.
Proof.
unfold write_more. intros H He. rewrite He, andb_true_r in H.
apply Nat.ltb_ge in H. exact H.
Qed.

Lemma write_more_true (w : Writer) (p : list byte) :
write_more w p = true -> werr w = None /\ (Available w < length p)%nat.
Proof.
unfold write_more. intros H. apply andb_true_iff in H as [H1 H2].
apply Nat.ltb_lt in H1. destruct (werr w); [discriminate | auto].
Qed.

(** The unrolled loop is the whole loop: after it the condition
  [len(p) > b.Available() && b.err == nil] is false. *)
Lemma write_loop_ends (w : Writer) (p : list byte) :
let '(w2, p2) := write_loop w p in write_more w2 p2 = false.
Proof.
unfold write_loop, guarded_pass.
destruct (write_more w p) eqn:M1.
- apply write_more_true in M1 as [He Hbig].
  pose proof (write_pass_stream w p He) as P1.
  destruct (write_pass w p) as [b1 p1]. destruct P1 as [_ P1].
  destruct (write_more b1 p1) eqn:M2; [| exact M2].
  apply write_more_true in M2 as [He1 _].
  rewrite He1 in P1. destruct P1 as (_ & Hb1 & _).
  pose proof (write_pass_stream b1 p1 He1) as P2.
  destruct (write_pass b1 p1) as [b2 p2]. destruct P2 as [_ P2].
  unfold write_more.
  destruct (werr b2); [apply andb_false_r |].
  destruct P2 as (_ & _ & Hp2). rewrite (Hp2 Hb1). reflexivity.
- rewrite M1. exact M1.
Qed.

(** A [Write] that reports no error has handed all of [p] on, in order. *)
Lemma bufio_Write_None (w : Writer) (p : list byte) (w' : Writer) :
bufio_Write w p = (None, w') ->
werr w = None /\ werr w' = None /\
stream w' = stream w ++ p /\ size w' = size w.
Proof.
unfold bufio_Write, write_loop, guarded_pass.
destruct (write_more w p) eqn:M1.
- apply write_more_true in M1 as [He Hbig].
  pose proof (write_pass_stream w p He) as P1.
  destruct (write_pass w p) as [b1 p1]. destruct P1 as [Hsz1 P1].
  destruct (write_more b1 p1) eqn:M2.
  + apply write_more_true in M2 as [He1 Hbig1].
    rewrite He1 in P1. destruct P1 as (Hst1 & Hb1 & _).
    pose proof (write_pass_stream b1 p1 He1) as P2.
    destruct (write_pass b1 p1) as [b2 p2]. destruct P2 as [Hsz2 P2].
    destruct (werr b2) eqn:He2; [discriminate |].
    destruct P2 as (Hst2 & Hb2 & Hp2). specialize (Hp2 Hb1). subst p2.
    intros H; inversion H; subst w'; clear H.
    unfold stream in *; cbn [wr buf size werr].
    rewrite firstn_nil. rewrite !app_nil_r in *.
    repeat split; congruence.
  + destruct (werr b1) eqn:He1; [discriminate |].
    destruct P1 as (Hst1 & Hb1 & _).
    apply write_more_false in M2; [| exact He1].
    intros H; inversion H; subst w'; clear H.
    unfold stream in *; cbn [wr buf size werr].
    rewrite (firstn_all2 _ M2), app_assoc.
    repeat split; congruence.
- rewrite M1.
  destruct (werr w) eqn:He; [discriminate |].
  apply write_more_false in M1; [| exact He].
  intros H; inversion H; subst w'; clear H.
  unfold stream; cbn [wr buf size werr].
  rewrite (firstn_all2 _ M1), app_assoc.
  repeat split; reflexivity.
Qed.

End WriterFacts.

(** ** Reading *)

Section ReaderFacts.
Variables (c : error) (sz : Z).

Lemma firstn_length_app (bs rest : list byte) :
  firstn (length bs) (bs ++ rest) = bs.
Proof.
  rewrite firstn_app, firstn_all, Nat.sub_diag, firstn_O.
  apply app_nil_r.
Qed.

Lemma skipn_length_app (bs rest : list byte) :
  skipn (length bs) (bs ++ rest) = rest.
Proof.
  rewrite skipn_app, skipn_all, Nat.sub_diag. reflexivity.
Qed.

Lemma io_ReadFull_exact (n : Z) (bs rest : list byte) (k : Z) :
  n = Z.of_nat (length bs) ->
  io_ReadFull n {| rd := {| incoming := bs ++ rest; closing := c |}; rsize := k |}
  = (Ok bs, {| rd := {| incoming := rest; closing := c |}; rsize := k |}).
Proof.
  intros ->. unfold io_ReadFull. cbn [rd incoming closing rsize].
  destruct (Z.leb_spec (Z.of_nat (length bs)) 0) as [Hz | Hz].
  - destruct bs; [reflexivity | cbn [length] in Hz; lia].
  - rewrite length_app.
    destruct (Z.leb_spec (Z.of_nat (length bs))
                         (Z.of_nat (length bs + length rest))) as [_ | Hlt];
      [| lia].
    rewrite Nat2Z.id, firstn_length_app, skipn_length_app. reflexivity.
Qed.

Lemma io_ReadFull_short (n : Z) (bs : list byte) (k : Z) :
  Z.of_nat (length bs) < n ->
  io_ReadFull n {| rd := {| incoming := bs; closing := c |}; rsize := k |}
  = (Err (short_read bs c),
     {| rd := {| incoming := []; closing := c |}; rsize := k |}).
Proof.
  intros Hn. unfold io_ReadFull. cbn [rd incoming closing rsize].
  destruct (Z.leb_spec n 0) as [Hz | Hz]; [lia |].
  destruct (Z.leb_spec n (Z.of_nat (length bs))) as [Hle | _]; [lia |].
  reflexivity.
Qed.

Lemma read_uint8_cons (b : byte) (rest : list byte) :
  on_br binary_Read_uint8 (decoderOn (b :: rest) c sz)
  = (Ok b, decoderOn rest c sz).
Proof.
  unfold on_br, decoderOn, defaultMessageDecoder, NewReaderSize; cbn [br].
  unfold binary_Read_uint8.
  rewrite (bind_Ok _ (io_ReadFull_exact 1 [b] rest _ eq_refl)).
  reflexivity.
Qed.

Lemma read_uint8_nil :
  on_br binary_Read_uint8 (decoderOn [] c sz) = (Err c, decoderOn [] c sz).
Proof.
  unfold on_br, decoderOn, defaultMessageDecoder, NewReaderSize; cbn [br].
  unfold binary_Read_uint8.
  rewrite (bind_Err _ (io_ReadFull_short 1 [] _ ltac:(cbn; lia))).
  reflexivity.
Qed.

Lemma read_raw_Header (hb rest : list byte) :
  length hb = 13%nat ->
  on_br binary_Read_Header (decoderOn (hb ++ rest) c sz)
  = (Ok (decode_Header hb), decoderOn rest c sz).
Proof.
  intros Hlen.
  unfold on_br, decoderOn, defaultMessageDecoder, NewReaderSize; cbn [br].
  unfold binary_Read_Header.
  rewrite (bind_Ok _ (io_ReadFull_exact dataSize_Header hb rest _
                        ltac:(rewrite Hlen; reflexivity))).
  reflexivity.
Qed.

Lemma read_bytes_app (n : Z) (bs rest : list byte) :
  n = Z.of_nat (length bs) ->
  on_br (binary_Read_bytes n) (decoderOn (bs ++ rest) c sz)
  = (Ok bs, decoderOn rest c sz).
Proof.
  intros Hn.
  unfold on_br, decoderOn, defaultMessageDecoder, NewReaderSize; cbn [br].
  unfold binary_Read_bytes.
  rewrite (io_ReadFull_exact n bs rest _ Hn). reflexivity.
Qed.

Lemma read_bytes_short (n : Z) (bs : list byte) :
  Z.of_nat (length bs) < n ->
  on_br (binary_Read_bytes n) (decoderOn bs c sz)
  = (Err (short_read bs c),
     decoderOn [] c sz).
Proof.
  intros Hn.
  unfold on_br, decoderOn, defaultMessageDecoder, NewReaderSize; cbn [br].
  unfold binary_Read_bytes.
  rewrite (io_ReadFull_short n bs _ Hn). reflexivity.
Qed.

(** After the start sentinel and the 13 bytes of the header, [Decode]
    goes on with the body and the end sentinel. *)
Lemma Decode_past_raw_header (s : byte) (hb tail : list byte) :
  length hb = 13%nat ->
  Decode (decoderOn (s :: hb ++ tail) c sz) =
  (body <- on_br (binary_Read_bytes (bodyLen (decode_Header hb))) ;;
   eoh <- on_br binary_Read_uint8 ;;
   ret (ptrCustomPacket
          (Some {| SOH := s; embedded := decode_Header hb;
                   Body := body; EOH := eoh |})))
    (decoderOn tail c sz).
Proof.
  intros Hlen. unfold Decode.
  rewrite (bind_Ok _ (read_uint8_cons s _)).
  rewrite (bind_Ok _ (read_raw_Header _ _ Hlen)).
  reflexivity.
Qed.

Lemma Decode_past_header (s : byte) (h : Header) (tail : list byte) :
  wf_Header h ->
  Decode (decoderOn (s :: encode_Header h ++ tail) c sz) =
  (body <- on_br (binary_Read_bytes (bodyLen h)) ;;
   eoh <- on_br binary_Read_uint8 ;;
   ret (ptrCustomPacket
          (Some {| SOH := s; embedded := h; Body := body; EOH := eoh |})))
    (decoderOn tail c sz).
Proof.
  intros Hh.
  rewrite Decode_past_raw_header by apply length_encode_Header.
  rewrite <- (app_nil_r (encode_Header h)), decode_encode_Header by assumption.
  reflexivity.
Qed.

(** A whole frame on the wire, with the declared length matching the
    decoder's overhead, is returned as it was sent. *)
Lemma Decode_frame (s : byte) (h : Header) (body : list byte) (e : byte)
      (rest : list byte) :
  wf_Header h ->
  bodyLen h = Z.of_nat (length body) ->
  Decode (decoderOn (s :: encode_Header h ++ body ++ e :: rest) c sz) =
  (Ok (ptrCustomPacket
         (Some {| SOH := s; embedded := h; Body := body; EOH := e |})),
   decoderOn rest c sz).
Proof.
  intros Hh Hn. rewrite Decode_past_header by assumption.
  rewrite (bind_Ok _ (read_bytes_app _ _ _ Hn)).
  rewrite (bind_Ok _ (read_uint8_cons e _)).
  reflexivity.
Qed.

End ReaderFacts.

(** ** Encoding *)

Section EncoderFacts.

Lemma bind_Ok_inv {S A B : Type} (m : M S A) (k : A -> M S B)
      (s s' : S) (b : B) :
  bind m k s = (Ok b, s') ->
  exists a s1, m s = (Ok a, s1) /\ k a s1 = (Ok b, s').
Proof.
  unfold bind. destruct (m s) as [[a | e | w] s1]; intros H;
    [eauto | discriminate | discriminate].
Qed.

Lemma on_bw_Write_healthy (w : Writer) (data : list byte) :
  healthy w ->
  exists w',
    on_bw (binary_Write data) {| bw := Some w |} = (Ok tt, {| bw := Some w' |}) /\
    healthy w' /\ stream w' = stream w ++ data /\ size w' = size w.
Proof.
  intros Hw. destruct (bufio_Write_healthy w data Hw) as (w' & Hwr & Hrest).
  exists w'. split; [| exact Hrest].
  unfold on_bw, binary_Write; cbn [bw]. rewrite Hwr. reflexivity.
Qed.

Lemma on_bw_Write_fits (w : Writer) (data : list byte) :
  werr w = None ->
  (length (buf w) + length data <= size w)%nat ->
  on_bw (binary_Write data) {| bw := Some w |} =
  (Ok tt, {| bw := Some {| wr := wr w; buf := buf w ++ data;
                           size := size w; werr := None |} |}).
Proof.
  intros He Hfit. unfold on_bw, binary_Write; cbn [bw].
  rewrite bufio_Write_fits by assumption. reflexivity.
Qed.

Lemma on_bw_Write_Ok (e e' : CustomPacketEncoder) (data : list byte) (u : unit) :
  on_bw (binary_Write data) e = (Ok u, e') ->
  exists w w',
    bw e = Some w /\ bw e' = Some w' /\
    werr w = None /\ werr w' = None /\
    stream w' = stream w ++ data /\ size w' = size w.
Proof.
  unfold on_bw, binary_Write. destruct (bw e) as [w |]; [| discriminate].
  destruct (bufio_Write w data) as [[err |] w'] eqn:Hwr; [discriminate |].
  intros H; inversion H; subst; clear H.
  apply bufio_Write_None in Hwr as (? & ? & ? & ?).
  exists w, w'; cbn [bw]; auto 10.
Qed.

Lemma length_frame (p : CustomPacket) :
  length (frame p) = (15 + length (Body p))%nat.
Proof.
  unfold frame, encode_uint8.
  rewrite !length_app, length_encode_Header. cbn [length]. lia.
Qed.

(** On a healthy writer [Encode] succeeds and appends the frame. *)
Lemma Encode_healthy (w : Writer) (p : CustomPacket) :
  healthy w ->
  exists w',
    Encode (ptrCustomPacket (Some p)) {| bw := Some w |}
    = (Ok tt, {| bw := Some w' |}) /\
    healthy w' /\ stream w' = stream w ++ frame p /\ size w' = size w.
Proof.
  intros H0. unfold Encode.
  destruct (on_bw_Write_healthy w (encode_uint8 (SOH p)) H0)
    as (w1 & E1 & H1 & S1 & Z1).
  destruct (on_bw_Write_healthy w1 (encode_Header p) H1)
    as (w2 & E2 & H2 & S2 & Z2).
  destruct (on_bw_Write_healthy w2 (Body p) H2)
    as (w3 & E3 & H3 & S3 & Z3).
  destruct (on_bw_Write_healthy w3 (encode_uint8 (EOH p)) H3)
    as (w4 & E4 & H4 & S4 & Z4).
  exists w4.
  rewrite (bind_Ok _ E1), (bind_Ok _ E2), (bind_Ok _ E3), (bind_Ok _ E4).
  split; [reflexivity |]. split; [exact H4 |].
  split; [| congruence].
  rewrite S4, S3, S2, S1. unfold frame. now rewrite <- !app_assoc.
Qed.

(** When the frame fits into the free part of the buffer, all of it
    stays there and the sink sees nothing. *)
Lemma Encode_fits (w : Writer) (p : CustomPacket) :
  werr w = None ->
  (length (buf w) + length (frame p) <= size w)%nat ->
  Encode (ptrCustomPacket (Some p)) {| bw := Some w |} =
  (Ok tt, {| bw := Some {| wr := wr w; buf := buf w ++ frame p;
                           size := size w; werr := None |} |}).
Proof.
  intros He Hfit. rewrite length_frame in Hfit. unfold Encode.
  do 4 (erewrite bind_Ok
         by (apply on_bw_Write_fits;
             [ first [exact He | reflexivity]
             | cbn [buf size];
               rewrite ?length_app, ?length_encode_Header;
               cbn [length encode_uint8]; lia ]);
        cbn [wr buf size]).
  cbn [wr buf size]. unfold ret, frame. now rewrite <- !app_assoc.
Qed.

(** Whatever the sink, an [Encode] that returns nil has appended the
    whole frame, in order. *)
Lemma Encode_Ok_stream (e e' : CustomPacketEncoder) (p : CustomPacket) (u : unit) :
  Encode (ptrCustomPacket (Some p)) e = (Ok u, e') ->
  exists w w',
    bw e = Some w /\ bw e' = Some w' /\
    werr w = None /\ werr w' = None /\
    stream w' = stream w ++ frame p /\ size w' = size w.
Proof.
  unfold Encode. intros H.
  apply bind_Ok_inv in H as (u1 & e1 & E1 & H).
  apply bind_Ok_inv in H as (u2 & e2 & E2 & H).
  apply bind_Ok_inv in H as (u3 & e3 & E3 & H).
  apply bind_Ok_inv in H as (u4 & e4 & E4 & H).
  inversion H; subst; clear H.
  apply on_bw_Write_Ok in E1 as (w0 & w1 & B0 & B1 & N0 & N1 & S1 & Z1).
  apply on_bw_Write_Ok in E2 as (w1' & w2 & B1' & B2 & _ & N2 & S2 & Z2).
  apply on_bw_Write_Ok in E3 as (w2' & w3 & B2' & B3 & _ & N3 & S3 & Z3).
  apply on_bw_Write_Ok in E4 as (w3' & w4 & B3' & B4 & _ & N4 & S4 & Z4).
  assert (w1' = w1) by congruence. assert (w2' = w2) by congruence.
  assert (w3' = w3) by congruence. subst.
  exists w0, w4. repeat (split; [assumption || congruence |]).
  split; [| congruence].
  rewrite S4, S3, S2, S1. unfold frame. now rewrite <- !app_assoc.
Qed.

Lemma Flush_healthy (w : Writer) :
  healthy w ->
  Flush {| bw := Some w |} =
  (Ok tt, {| bw := Some {| wr := {| received := stream w; quota := None |};
                           buf := []; size := size w; werr := None |} |}).
Proof.
  intros Hw. unfold Flush; cbn [bw].
  rewrite bufio_Flush_healthy by assumption. reflexivity.
Qed.

End EncoderFacts.

(** ** The derived body length *)

Section BodyLength.

Lemma bodyLen_mod (h : Header) :
  bodyLen h = (PacketLen h - 16) mod 2 ^ 32.
Proof.
  unfold bodyLen, sub32, u32, HeaderLen, SohLen, EohLen.
  rewrite Zminus_mod_idemp_l.
  replace ((PacketLen h - 13) mod 2 ^ 32 - 1 - 2)
    with ((PacketLen h - 13) mod 2 ^ 32 - 3) by lia.
  rewrite Zminus_mod_idemp_l.
  replace (PacketLen h - 13 - 3) with (PacketLen h - 16) by lia.
  reflexivity.
Qed.

Lemma bodyLen_range (h : Header) : 0 <= bodyLen h < 2 ^ 32.
Proof. rewrite bodyLen_mod. apply Z.mod_pos_bound. lia. Qed.

Lemma bodyLen_consistent (p : CustomPacket) :
  wf_CustomPacket p -> consistent p ->
  bodyLen p = Z.of_nat (length (Body p)).
Proof.
  intros (_ & _ & Hl & _) Hc. rewrite bodyLen_mod.
  unfold consistent, HeaderLen, SohLen, EohLen in Hc. unfold is_u32 in Hl.
  rewrite Z.mod_small; lia.
Qed.

Lemma bodyLen_underflow (h : Header) :
  is_u32 (PacketLen h) -> PacketLen h < HeaderLen + SohLen + EohLen ->
  bodyLen h = PacketLen h + 2 ^ 32 - 16.
Proof.
  unfold is_u32, HeaderLen, SohLen, EohLen. intros Hl Hs.
  rewrite bodyLen_mod.
  replace (PacketLen h - 16) with (PacketLen h + 2 ^ 32 - 16 + (-1) * 2 ^ 32) by lia.
  rewrite Z.mod_add by lia. rewrite Z.mod_small; lia.
Qed.

Lemma frame_cons (p : CustomPacket) (rest : list byte) :
  frame p ++ rest = SOH p :: encode_Header p ++ Body p ++ EOH p :: rest.
Proof.
  unfold frame, encode_uint8. cbn [app]. now rewrite <- !app_assoc.
Qed.

Lemma CustomPacket_eta (p : CustomPacket) :
  {| SOH := SOH p; embedded := embedded p; Body := Body p; EOH := EOH p |} = p.
Proof. destruct p; reflexivity. Qed.

(** A consistent frame on the wire decodes to the packet it was made
    from, and leaves what follows it unread. *)
Lemma Decode_consistent_frame (p : CustomPacket) (rest : list byte)
      (c : error) (sz : Z) :
  wf_CustomPacket p -> consistent p ->
  Decode (decoderOn (frame p ++ rest) c sz) =
  (Ok (ptrCustomPacket (Some p)), decoderOn rest c sz).
Proof.
  intros Hw Hc. rewrite frame_cons.
  rewrite Decode_frame; [| exact Hw | now apply bodyLen_consistent].
  now rewrite CustomPacket_eta.
Qed.

End BodyLength.

(** ** Sending: Encode then Flush on a fresh connection *)

Section Sending.

Lemma healthy_NewWriterSize (n : Z) : healthy (NewWriterSize openSink n).
Proof. split; reflexivity. Qed.

(** Encoding a packet on a healthy encoder and flushing puts exactly its
    frame behind what the sink had and what the buffer held. *)
Lemma Encode_Flush_healthy (w : Writer) (p : CustomPacket) :
  healthy w ->
  exists e1,
    Encode (ptrCustomPacket (Some p)) {| bw := Some w |} = (Ok tt, e1) /\
    Flush e1 =
    (Ok tt, {| bw := Some {| wr := {| received := stream w ++ frame p;
                                      quota := None |};
                             buf := []; size := size w; werr := None |} |}).
Proof.
  intros Hw. destruct (Encode_healthy w p Hw) as (w1 & E1 & H1 & S1 & Z1).
  exists {| bw := Some w1 |}. split; [exact E1 |].
  rewrite Flush_healthy by assumption. now rewrite S1, Z1.
Qed.

End Sending.

(** * The properties of the specification *)

Section WireFormat.

Lemma PutUint16_big_endian (v : Z) :
  BigEndian.PutUint16 v = big_endian 2 v.
Proof.
  rewrite PutUint16_digits. cbn [big_endian].
  change (256 ^ Z.of_nat 1) with 256. change (256 ^ Z.of_nat 0) with 1.
  now rewrite Z.div_1_r.
Qed.

Lemma PutUint32_big_endian (v : Z) :
  BigEndian.PutUint32 v = big_endian 4 v.
Proof.
  rewrite PutUint32_digits. cbn [big_endian].
  change (Z.of_nat 3) with 3. change (Z.of_nat 2) with 2.
  change (256 ^ Z.of_nat 1) with 256. change (256 ^ Z.of_nat 0) with 1.
  now rewrite Z.div_1_r.
Qed.

Lemma frame_wire_format (p : CustomPacket) : frame p = wire_format p.
Proof.
  unfold frame, wire_format, encode_Header, encode_uint8.
  rewrite !PutUint32_big_endian, !PutUint16_big_endian.
  now rewrite <- !app_assoc.
Qed.

End WireFormat.

(** C10.  [SetErrCode] stores a 32-bit code in the 16-bit field [ErrCode]
    by truncation: afterwards [ErrCode] is [code mod 2^16], and every other
    field of the packet, and so its [ID], is what it was. *)
Theorem C10_SetErrCode_truncates (p : CustomPacket) (code : Z) :
  ErrCode (SetErrCode p code) = code mod 2 ^ 16 /\
  SOH (SetErrCode p code) = SOH p /\
  Seq (SetErrCode p code) = Seq p /\
  PacketLen (SetErrCode p code) = PacketLen p /\
  Version (SetErrCode p code) = Version p /\
  CheckSum (SetErrCode p code) = CheckSum p /\
  Body (SetErrCode p code) = Body p /\
  EOH (SetErrCode p code) = EOH p /\
  ID (SetErrCode p code) = ID p.
Proof. repeat split. Qed.

(** C4.  A [Packet] that is not a [*CustomPacket] makes [Encode] return its
    type-mismatch error and leaves the encoder, buffer and sink included,
    as it was. *)
Theorem C4_Encode_type_mismatch (p : Packet) (e : CustomPacketEncoder) :
  (forall target, p <> ptrCustomPacket target) ->
  Encode p e = (Err (errors_New "SelfPacketEncoder Encode occur error"), e).
Proof.
  intros Hp. destruct p as [| target | T methods v].
  - reflexivity.
  - exfalso. exact (Hp target eq_refl).
  - reflexivity.
Qed.

Lemma C4_witness :
  (forall target,
      otherPacket {| beat := 1; status := 0 |}
      <> ptrCustomPacket target) /\
  Encode (otherPacket {| beat := 1; status := 0 |})
         (defaultMessageEncoder openSink 16)
  = (Err (errors_New "SelfPacketEncoder Encode occur error"),
     defaultMessageEncoder openSink 16).
Proof.
  split.
  - intros target H. discriminate H.
  - apply (C4_Encode_type_mismatch
             (otherPacket {| beat := 1; status := 0 |})
             (defaultMessageEncoder openSink 16)).
    intros target H. discriminate H.
Defined.

(** C5.  On a writer without pending error whose sink accepts the data,
    [Encode] of a [*CustomPacket] returns nil and appends to the bytes
    written so far, in this order: the start sentinel, the sequence (4 bytes),
    the error code (2), the frame length (4), the version (1), the checksum
    (2), all big-endian, then the body as it is, then the end sentinel.  When
    the free part of the buffer can hold them, they all stay in the buffer. *)
Theorem C5_Encode_layout (w : Writer) (p : CustomPacket) :
  healthy w ->
  exists w',
    Encode (ptrCustomPacket (Some p)) {| bw := Some w |}
    = (Ok tt, {| bw := Some w' |}) /\
    stream w' = stream w ++ wire_format p /\
    ((length (buf w) + length (wire_format p) <= size w)%nat ->
     wr w' = wr w /\ buf w' = buf w ++ wire_format p).
Proof.
  intros Hw. destruct (Encode_healthy w p Hw) as (w' & E & _ & S & _).
  exists w'. rewrite <- frame_wire_format.
  split; [exact E |]. split; [exact S |].
  intros Hfit. rewrite (Encode_fits w p (proj1 Hw) Hfit) in E.
  inversion E; subst w'. split; reflexivity.
Qed.

Lemma C5_witness :
  healthy (NewWriterSize openSink 64) /\
  exists w',
    Encode (ptrCustomPacket (Some samplePacket))
           {| bw := Some (NewWriterSize openSink 64) |}
    = (Ok tt, {| bw := Some w' |}) /\
    stream w' = stream (NewWriterSize openSink 64) ++ wire_format samplePacket /\
    ((length (buf (NewWriterSize openSink 64)) + length (wire_format samplePacket)
      <= size (NewWriterSize openSink 64))%nat ->
     wr w' = wr (NewWriterSize openSink 64) /\
     buf w' = buf (NewWriterSize openSink 64) ++ wire_format samplePacket).
Proof.
  split.
  - split; reflexivity.
  - apply (C5_Encode_layout (NewWriterSize openSink 64) samplePacket).
    split; reflexivity.
Defined.

(** C6.  [Decode] does not look at the value of the sentinels: a stream
    that is well formed apart from its sentinels, whatever bytes they are,
    decodes, and the packet returned has the two bytes as they were read. *)
Theorem C6_sentinels_not_validated (s e : byte) (h : Header)
        (body rest : list byte) (c : error) (sz : Z) :
  wf_Header h ->
  PacketLen h = HeaderLen + SohLen + EohLen + Z.of_nat (length body) ->
  Decode (decoderOn (s :: encode_Header h ++ body ++ e :: rest) c sz) =
  (Ok (ptrCustomPacket
         (Some {| SOH := s; embedded := h; Body := body; EOH := e |})),
   decoderOn rest c sz).
Proof.
  intros Hh Hl. apply Decode_frame; [exact Hh |].
  apply (bodyLen_consistent
           {| SOH := s; embedded := h; Body := body; EOH := e |});
    assumption.
Qed.

Lemma C6_witness :
  wf_Header samplePacket /\
  PacketLen samplePacket = HeaderLen + SohLen + EohLen + Z.of_nat (length hello) /\
  Decode (decoderOn (Byte.xff :: encode_Header samplePacket ++ hello ++ Byte.x00 :: [])
                    EOF 0) =
  (Ok (ptrCustomPacket
         (Some {| SOH := Byte.xff; embedded := samplePacket; Body := hello;
                  EOH := Byte.x00 |})),
   decoderOn [] EOF 0).
Proof.
  assert (Hw : wf_Header samplePacket)
    by (repeat split; vm_compute; congruence).
  split; [exact Hw |]. split; [reflexivity |].
  apply (C6_sentinels_not_validated Byte.xff Byte.x00 samplePacket hello [] EOF 0).
  - exact Hw.
  - reflexivity.
Defined.

(** C7.  A source that delivers the start sentinel and the 13 bytes of the
    header and then ends makes [Decode] return the error of the source
    itself ([EOF] when the stream was closed), as it is: [Decode] returns,
    does not panic, gives no packet and has no error kind of its own for a
    frame cut short. *)
Theorem C7_truncated_after_header (bs : list byte) (c : error) (sz : Z) :
  length bs = 14%nat ->
  Decode (decoderOn bs c sz) = (Err c, decoderOn [] c sz).
Proof.
  intros Hlen. destruct bs as [| s hb]; [discriminate |].
  cbn [length] in Hlen. injection Hlen as Hlen.
  rewrite <- (app_nil_r hb).
  rewrite Decode_past_raw_header by exact Hlen.
  pose proof (bodyLen_range (decode_Header hb)) as Hr.
  destruct (Z.eq_dec (bodyLen (decode_Header hb)) 0) as [Hz | Hnz].
  - rewrite (bind_Ok _ (read_bytes_app c sz _ [] [] Hz)).
    rewrite (bind_Err _ (read_uint8_nil c sz)). reflexivity.
  - assert (Hlt : Z.of_nat (length (@nil byte)) < bodyLen (decode_Header hb))
      by (cbn [length]; lia).
    rewrite (bind_Err _ (read_bytes_short c sz _ [] Hlt)).
    reflexivity.
Qed.

Lemma C7_witness :
  length (firstn 14 (frame samplePacket)) = 14%nat /\
  Decode (decoderOn (firstn 14 (frame samplePacket)) EOF 0)
  = (Err EOF, decoderOn [] EOF 0).
Proof.
  split.
  - reflexivity.
  - apply (C7_truncated_after_header (firstn 14 (frame samplePacket)) EOF 0).
    reflexivity.
Defined.

(** C1.  Round trip.  A packet whose [PacketLen] is 16 plus the length of
    its body is encoded and flushed without error on a fresh connection, and
    [Decode] on the bytes that reached the sink returns a packet equal to it
    in every field, with nothing left unread. *)
Theorem C1_round_trip (p : CustomPacket) (wsize rsize : Z) (c : error) :
  wf_CustomPacket p ->
  consistent p ->
  exists e1 e2,
    Encode (ptrCustomPacket (Some p)) (defaultMessageEncoder openSink wsize)
    = (Ok tt, e1) /\
    Flush e1 = (Ok tt, e2) /\
    Decode (decoderOn (transmitted e2) c rsize)
    = (Ok (ptrCustomPacket (Some p)), decoderOn [] c rsize).
Proof.
  intros Hw Hc.
  destruct (Encode_Flush_healthy (NewWriterSize openSink wsize) p
              (healthy_NewWriterSize wsize)) as (e1 & E1 & F1).
  exists e1. eexists. split; [exact E1 |]. split; [exact F1 |].
  cbn [transmitted bw wr received].
  change (stream (NewWriterSize openSink wsize)) with (@nil byte).
  cbn [app]. rewrite <- (app_nil_r (frame p)).
  now apply Decode_consistent_frame.
Qed.

Lemma C1_witness :
  wf_CustomPacket samplePacket /\
  consistent samplePacket /\
  exists e1 e2,
    Encode (ptrCustomPacket (Some samplePacket)) (defaultMessageEncoder openSink 4)
    = (Ok tt, e1) /\
    Flush e1 = (Ok tt, e2) /\
    Decode (decoderOn (transmitted e2) EOF 0)
    = (Ok (ptrCustomPacket (Some samplePacket)), decoderOn [] EOF 0).
Proof.
  assert (Hw : wf_CustomPacket samplePacket)
    by (repeat split; vm_compute; congruence).
  split; [exact Hw |]. split; [reflexivity |].
  apply (C1_round_trip samplePacket 4 0 EOF).
  - exact Hw.
  - reflexivity.
Defined.

Section Corruption.

Lemma corrupt_middle (pre l post : list byte) (i : nat) (b : byte) :
  (i < length l)%nat ->
  corrupt (length pre + i) b (pre ++ l ++ post) = pre ++ corrupt i b l ++ post.
Proof.
  intros Hi. unfold corrupt.
  rewrite firstn_app_2.
  rewrite (firstn_app i l post).
  replace (i - length l)%nat with 0%nat by lia. rewrite firstn_O, app_nil_r.
  rewrite (skipn_app (S (length pre + i)) pre).
  rewrite (skipn_all2 pre) by lia.
  replace (S (length pre + i) - length pre)%nat with (S i) by lia.
  rewrite (skipn_app (S i) l post).
  replace (S i - length l)%nat with 0%nat by lia.
  cbn [app skipn]. now rewrite <- !app_assoc.
Qed.

Lemma length_corrupt (l : list byte) (i : nat) (b : byte) :
  (i < length l)%nat -> length (corrupt i b l) = length l.
Proof.
  intros Hi. unfold corrupt.
  rewrite length_app, length_firstn. cbn [length]. rewrite length_skipn. lia.
Qed.

Lemma nth_corrupt (l : list byte) (i : nat) (b : byte) :
  (i < length l)%nat -> nth i (corrupt i b l) Byte.x00 = b.
Proof.
  intros Hi. unfold corrupt.
  rewrite app_nth2 by (rewrite length_firstn; lia).
  rewrite length_firstn.
  replace (i - Nat.min i (length l))%nat with 0%nat by lia.
  reflexivity.
Qed.

(** Corrupting byte [i] of the body on the wire gives the frame of the
    packet with that body. *)
Lemma corrupt_frame (p : CustomPacket) (i : nat) (b : byte) :
  (i < length (Body p))%nat ->
  corrupt (14 + i) b (frame p) = frame (with_Body p (corrupt i b (Body p))).
Proof.
  intros Hi. unfold frame, with_Body; cbn [SOH embedded Body EOH].
  rewrite (app_assoc (encode_uint8 (SOH p))).
  change (14 + i)%nat
    with (length (encode_uint8 (SOH p) ++ encode_Header p) + i)%nat.
  rewrite corrupt_middle by exact Hi.
  now rewrite <- app_assoc.
Qed.

End Corruption.

(** C9.  Two consistent packets encoded one after the other on a fresh
    connection, with a flush after each, give one byte stream from which two
    calls of [Decode] return the first packet and then the second, each equal
    to the original in every field. *)
Theorem C9_two_frames_in_order (p1 p2 : CustomPacket) (wsize rsize : Z) (c : error) :
  wf_CustomPacket p1 -> consistent p1 ->
  wf_CustomPacket p2 -> consistent p2 ->
  exists e1 e2 e3 e4 d1,
    Encode (ptrCustomPacket (Some p1)) (defaultMessageEncoder openSink wsize)
    = (Ok tt, e1) /\
    Flush e1 = (Ok tt, e2) /\
    Encode (ptrCustomPacket (Some p2)) e2 = (Ok tt, e3) /\
    Flush e3 = (Ok tt, e4) /\
    Decode (decoderOn (transmitted e4) c rsize)
    = (Ok (ptrCustomPacket (Some p1)), d1) /\
    Decode d1 = (Ok (ptrCustomPacket (Some p2)), decoderOn [] c rsize).
Proof.
  intros Hw1 Hc1 Hw2 Hc2.
  destruct (Encode_Flush_healthy (NewWriterSize openSink wsize) p1
              (healthy_NewWriterSize wsize)) as (e1 & E1 & F1).
  change (stream (NewWriterSize openSink wsize)) with (@nil byte) in F1.
  cbn [app] in F1.
  set (w2 := {| wr := {| received := frame p1; quota := None |}; buf := [];
                size := size (NewWriterSize openSink wsize); werr := None |}) in F1.
  assert (H2 : healthy w2) by (split; reflexivity).
  destruct (Encode_Flush_healthy w2 p2 H2) as (e3 & E3 & F3).
  exists e1, {| bw := Some w2 |}, e3. eexists. exists (decoderOn (frame p2) c rsize).
  split; [exact E1 |]. split; [exact F1 |].
  split; [exact E3 |]. split; [exact F3 |].
  cbn [transmitted bw wr received].
  unfold stream, w2; cbn [wr received buf]. rewrite app_nil_r.
  split.
  - now apply Decode_consistent_frame.
  - rewrite <- (app_nil_r (frame p2)). now apply Decode_consistent_frame.
Qed.

Lemma C9_witness :
  wf_CustomPacket samplePacket /\ consistent samplePacket /\
  wf_CustomPacket (with_Body (SetErrCode samplePacket 65541) hello) /\
  consistent (with_Body (SetErrCode samplePacket 65541) hello) /\
  exists e1 e2 e3 e4 d1,
    Encode (ptrCustomPacket (Some samplePacket)) (defaultMessageEncoder openSink 8)
    = (Ok tt, e1) /\
    Flush e1 = (Ok tt, e2) /\
    Encode (ptrCustomPacket (Some (with_Body (SetErrCode samplePacket 65541) hello))) e2
    = (Ok tt, e3) /\
    Flush e3 = (Ok tt, e4) /\
    Decode (decoderOn (transmitted e4) EOF 0)
    = (Ok (ptrCustomPacket (Some samplePacket)), d1) /\
    Decode d1
    = (Ok (ptrCustomPacket (Some (with_Body (SetErrCode samplePacket 65541) hello))),
       decoderOn [] EOF 0).
Proof.
  assert (Hw1 : wf_CustomPacket samplePacket)
    by (repeat split; vm_compute; congruence).
  assert (Hw2 : wf_CustomPacket (with_Body (SetErrCode samplePacket 65541) hello))
    by (repeat split; vm_compute; congruence).
  split; [exact Hw1 |]. split; [reflexivity |].
  split; [exact Hw2 |]. split; [reflexivity |].
  apply (C9_two_frames_in_order
           samplePacket (with_Body (SetErrCode samplePacket 65541) hello) 8 0 EOF).
  - exact Hw1.
  - reflexivity.
  - exact Hw2.
  - reflexivity.
Defined.

(** C8.  The checksum is inert.  [Encode] writes the field [CheckSum] as it
    is (C5) and [Decode] compares it with nothing: when one byte of the body
    of a consistent frame is replaced on the wire, whatever the checksum
    field holds, [Decode] returns without error the packet with that byte in
    its body and every other field, the checksum included, as sent. *)
Theorem C8_checksum_inert (p : CustomPacket) (i : nat) (b : byte)
        (wsize rsize : Z) (c : error) :
  wf_CustomPacket p ->
  consistent p ->
  (i < length (Body p))%nat ->
  exists e1 e2,
    Encode (ptrCustomPacket (Some p)) (defaultMessageEncoder openSink wsize)
    = (Ok tt, e1) /\
    Flush e1 = (Ok tt, e2) /\
    Decode (decoderOn (corrupt (14 + i) b (transmitted e2)) c rsize)
    = (Ok (ptrCustomPacket (Some (with_Body p (corrupt i b (Body p))))),
       decoderOn [] c rsize) /\
    nth i (Body (with_Body p (corrupt i b (Body p)))) Byte.x00 = b.
Proof.
  intros Hw Hc Hi.
  destruct (Encode_Flush_healthy (NewWriterSize openSink wsize) p
              (healthy_NewWriterSize wsize)) as (e1 & E1 & F1).
  exists e1. eexists. split; [exact E1 |]. split; [exact F1 |].
  cbn [transmitted bw wr received].
  change (stream (NewWriterSize openSink wsize)) with (@nil byte).
  cbn [app]. split.
  - rewrite corrupt_frame by exact Hi.
    rewrite <- (app_nil_r (frame _)).
    apply Decode_consistent_frame.
    + exact Hw.
    + unfold consistent, with_Body in *; cbn [embedded Body].
      rewrite length_corrupt by exact Hi. exact Hc.
  - unfold with_Body; cbn [Body]. now apply nth_corrupt.
Qed.

Lemma C8_witness :
  wf_CustomPacket samplePacket /\
  consistent samplePacket /\
  (2 < length (Body samplePacket))%nat /\
  exists e1 e2,
    Encode (ptrCustomPacket (Some samplePacket)) (defaultMessageEncoder openSink 4)
    = (Ok tt, e1) /\
    Flush e1 = (Ok tt, e2) /\
    Decode (decoderOn (corrupt (14 + 2) Byte.xff (transmitted e2)) EOF 0)
    = (Ok (ptrCustomPacket
             (Some (with_Body samplePacket (corrupt 2 Byte.xff (Body samplePacket))))),
       decoderOn [] EOF 0) /\
    nth 2 (Body (with_Body samplePacket (corrupt 2 Byte.xff (Body samplePacket))))
        Byte.x00 = Byte.xff.
Proof.
  assert (Hw : wf_CustomPacket samplePacket)
    by (repeat split; vm_compute; congruence).
  assert (Hi : (2 < length (Body samplePacket))%nat) by (cbn; lia).
  split; [exact Hw |]. split; [reflexivity |]. split; [exact Hi |].
  apply (C8_checksum_inert samplePacket 2 Byte.xff 4 0 EOF).
  - exact Hw.
  - reflexivity.
  - exact Hi.
Defined.

Section DeclaredLength.

Lemma io_ReadFull_length (n : Z) (r r' : Reader) (bs : list byte) :
  0 <= n -> io_ReadFull n r = (Ok bs, r') -> Z.of_nat (length bs) = n.
Proof.
  intros Hn. unfold io_ReadFull.
  destruct (Z.leb_spec n 0) as [Hz | Hz].
  - intros H; inversion H; subst. cbn [length]. lia.
  - destruct (Z.leb_spec n (Z.of_nat (length (incoming (rd r))))) as [Hle | Hgt].
    + intros H; inversion H; subst.
      rewrite length_firstn. lia.
    + discriminate.
Qed.

Lemma read_bytes_length (n : Z) (d d' : CustomPacketDecoder) (bs : list byte) :
  0 <= n -> on_br (binary_Read_bytes n) d = (Ok bs, d') ->
  Z.of_nat (length bs) = n.
Proof.
  intros Hn. unfold on_br, binary_Read_bytes.
  destruct (br d) as [r |]; [| discriminate].
  destruct (io_ReadFull n r) as [res r'] eqn:Hr.
  intros H; inversion H; subst.
  exact (io_ReadFull_length n r r' bs Hn Hr).
Qed.

(** A frame whose derived body length is the length of its body decodes to
    the packet it was made from. *)
Lemma Decode_own_frame (p : CustomPacket) (rest : list byte) (c : error) (sz : Z) :
  wf_CustomPacket p ->
  bodyLen p = Z.of_nat (length (Body p)) ->
  Decode (decoderOn (frame p ++ rest) c sz) =
  (Ok (ptrCustomPacket (Some p)), decoderOn rest c sz).
Proof.
  intros Hw Hn. rewrite frame_cons.
  rewrite Decode_frame; [| exact Hw | exact Hn].
  now rewrite CustomPacket_eta.
Qed.

(** And only such a frame does. *)
Lemma Decode_own_frame_inv (p : CustomPacket) (rest : list byte) (c : error)
      (sz : Z) (d' : CustomPacketDecoder) :
  wf_CustomPacket p ->
  Decode (decoderOn (frame p ++ rest) c sz) = (Ok (ptrCustomPacket (Some p)), d') ->
  bodyLen p = Z.of_nat (length (Body p)).
Proof.
  intros Hw H. rewrite frame_cons, Decode_past_header in H by exact Hw.
  apply bind_Ok_inv in H as (body & d1 & Hb & H).
  apply bind_Ok_inv in H as (eoh & d2 & He & H).
  unfold ret in H. inversion H as [[Hp Hd]].
  apply read_bytes_length in Hb; [| apply bodyLen_range].
  rewrite <- Hp at 2. cbn [Body]. now symmetry.
Qed.

Lemma bodyLen_is_length_iff (h : Header) (L : Z) :
  is_u32 (PacketLen h) -> 0 <= L ->
  bodyLen h = L <-> L < 2 ^ 32 /\ PacketLen h = (16 + L) mod 2 ^ 32.
Proof.
  unfold is_u32. intros Hl HL. rewrite bodyLen_mod. split.
  - intros H.
    assert (HL' : L < 2 ^ 32)
      by (rewrite <- H; apply Z.mod_pos_bound; lia).
    split; [exact HL' |].
    rewrite <- H, Zplus_mod_idemp_r.
    replace (16 + (PacketLen h - 16)) with (PacketLen h) by lia.
    rewrite Z.mod_small; lia.
  - intros [HL' ->]. rewrite Zminus_mod_idemp_l.
    replace (16 + L - 16) with L by lia.
    rewrite Z.mod_small; lia.
Qed.

End DeclaredLength.

(** C2, as the code has it.  A declared frame length below the overhead of
    16 is not rejected: the subtraction wraps around to
    [PacketLen + 2^32 - 16], [Decode] goes on to read that many bytes of
    body, and when the source ends before it has delivered them, [Decode] has
    consumed all there was and returns the read error of the source (its own
    error when nothing followed the header, [ErrUnexpectedEOF] in place of
    [EOF] otherwise). *)
Theorem C2_short_length_reads_on (s : byte) (h : Header) (tail : list byte)
        (c : error) (sz : Z) :
  wf_Header h ->
  PacketLen h < HeaderLen + SohLen + EohLen ->
  Z.of_nat (length tail) < PacketLen h + 2 ^ 32 - 16 ->
  bodyLen h = PacketLen h + 2 ^ 32 - 16 /\
  Decode (decoderOn (s :: encode_Header h ++ tail) c sz)
  = (Err (short_read tail c), decoderOn [] c sz).
Proof.
  intros Hh Hs Ht.
  assert (Hb : bodyLen h = PacketLen h + 2 ^ 32 - 16)
    by (apply bodyLen_underflow; [apply Hh | exact Hs]).
  split; [exact Hb |].
  rewrite Decode_past_header by exact Hh.
  rewrite <- Hb in Ht.
  rewrite (bind_Err _ (read_bytes_short c sz _ tail Ht)).
  reflexivity.
Qed.

Lemma C2_witness :
  wf_Header shortHeader /\
  PacketLen shortHeader < HeaderLen + SohLen + EohLen /\
  Z.of_nat (length [Byte.xaa; Byte.xbb; Byte.xcc]) < PacketLen shortHeader + 2 ^ 32 - 16 /\
  bodyLen shortHeader = PacketLen shortHeader + 2 ^ 32 - 16 /\
  Decode (decoderOn (Byte.x01 :: encode_Header shortHeader
                              ++ [Byte.xaa; Byte.xbb; Byte.xcc]) EOF 0)
  = (Err (short_read [Byte.xaa; Byte.xbb; Byte.xcc] EOF), decoderOn [] EOF 0).
Proof.
  assert (Hw : wf_Header shortHeader)
    by (repeat split; vm_compute; congruence).
  split; [exact Hw |]. split; [reflexivity |]. split; [reflexivity |].
  apply (C2_short_length_reads_on Byte.x01 shortHeader
           [Byte.xaa; Byte.xbb; Byte.xcc] EOF 0).
  - exact Hw.
  - reflexivity.
  - reflexivity.
Defined.

(** C2, as stated, fails.  The header of [shortStream] declares a frame
    length of 0; [Decode] does not stop after the header with an error of its
    own, it reads the three bytes that follow as the beginning of a body of
    2^32 - 16 bytes and returns [ErrUnexpectedEOF]. *)
Lemma C2_counterexample :
  PacketLen shortHeader < HeaderLen + SohLen + EohLen /\
  bodyLen shortHeader = 4294967280 /\
  Decode (decoderOn shortStream EOF 0)
  = (Err ErrUnexpectedEOF, decoderOn [] EOF 0) /\
  ~ fails_fast_malformed (decoderOn shortStream EOF 0).
Proof.
  assert (HD : Decode (decoderOn shortStream EOF 0)
               = (Err ErrUnexpectedEOF, decoderOn [] EOF 0))
    by (vm_compute; reflexivity).
  split; [reflexivity |]. split; [reflexivity |]. split; [exact HD |].
  intros (e & d' & H & Hio & _).
  rewrite HD in H. inversion H; subst e. discriminate Hio.
Qed.

(** C3, as the code has it.  The decoder derives the length of the body as
    the declared frame length minus 13, minus 1, minus the constant 2, in
    32-bit unsigned arithmetic; the encoder puts 15 + L bytes on the wire for
    a body of L bytes; and the frame of a packet decodes to that packet
    exactly when the derived length is L, that is when L < 2^32 and the
    declared [PacketLen] is 16 + L modulo 2^32, which is 16 + L itself
    whenever 16 + L fits in 32 bits. *)
Theorem C3_derived_body_length (p : CustomPacket) (rest : list byte)
        (c : error) (sz : Z) :
  wf_CustomPacket p ->
  bodyLen p = (PacketLen p - 13 - 1 - 2) mod 2 ^ 32 /\
  length (frame p) = (15 + length (Body p))%nat /\
  ((exists d', Decode (decoderOn (frame p ++ rest) c sz)
               = (Ok (ptrCustomPacket (Some p)), d'))
   <-> Z.of_nat (length (Body p)) < 2 ^ 32 /\
       PacketLen p = (16 + Z.of_nat (length (Body p))) mod 2 ^ 32) /\
  (16 + Z.of_nat (length (Body p)) < 2 ^ 32 ->
   (Decode (decoderOn (frame p ++ rest) c sz)
    = (Ok (ptrCustomPacket (Some p)), decoderOn rest c sz)
    <-> PacketLen p = 16 + Z.of_nat (length (Body p)))).
Proof.
  intros Hw.
  assert (Hl : is_u32 (PacketLen p)) by apply Hw.
  pose proof (bodyLen_is_length_iff p (Z.of_nat (length (Body p))) Hl
                (Nat2Z.is_nonneg _)) as Hiff.
  split.
  { rewrite bodyLen_mod. f_equal. lia. }
  split; [apply length_frame |].
  split.
  - rewrite <- Hiff. split.
    + intros [d' H]. exact (Decode_own_frame_inv p rest c sz d' Hw H).
    + intros H. eexists. now apply Decode_own_frame.
  - intros Hfit. rewrite Z.mod_small in Hiff by lia. split.
    + intros H. apply (Decode_own_frame_inv p rest c sz _ Hw) in H.
      now apply Hiff in H.
    + intros H. apply Decode_own_frame; [exact Hw |].
      apply Hiff. split; [lia | exact H].
Qed.

Lemma C3_witness :
  wf_CustomPacket samplePacket /\
  bodyLen samplePacket = (PacketLen samplePacket - 13 - 1 - 2) mod 2 ^ 32 /\
  length (frame samplePacket) = (15 + length (Body samplePacket))%nat /\
  ((exists d', Decode (decoderOn (frame samplePacket ++ []) EOF 0)
               = (Ok (ptrCustomPacket (Some samplePacket)), d'))
   <-> Z.of_nat (length (Body samplePacket)) < 2 ^ 32 /\
       PacketLen samplePacket
       = (16 + Z.of_nat (length (Body samplePacket))) mod 2 ^ 32) /\
  (16 + Z.of_nat (length (Body samplePacket)) < 2 ^ 32 ->
   (Decode (decoderOn (frame samplePacket ++ []) EOF 0)
    = (Ok (ptrCustomPacket (Some samplePacket)), decoderOn [] EOF 0)
    <-> PacketLen samplePacket = 16 + Z.of_nat (length (Body samplePacket)))).
Proof.
  assert (Hw : wf_CustomPacket samplePacket)
    by (repeat split; vm_compute; congruence).
  split; [exact Hw |].
  apply (C3_derived_body_length samplePacket [] EOF 0). exact Hw.
Defined.

(** A body of 2^32 - 16 bytes, whatever its bytes, under a header that
    declares length 0. *)
Lemma wrapped_frame_decodes (body : list byte) :
  Z.of_nat (length body) = 2 ^ 32 - 16 ->
  Decode (decoderOn
            (frame {| SOH := Byte.x01; embedded := shortHeader;
                      Body := body; EOH := Byte.x04 |}) EOF 0)
  = (Ok (ptrCustomPacket
           (Some {| SOH := Byte.x01; embedded := shortHeader;
                    Body := body; EOH := Byte.x04 |})),
     decoderOn [] EOF 0).
Proof.
  intros Hlen.
  rewrite <- (app_nil_r (frame _)).
  apply Decode_own_frame.
  - repeat split; vm_compute; congruence.
  - cbn [embedded Body]. rewrite Hlen. reflexivity.
Qed.

(** C3, as stated, fails.  [wrappedPacket] has a body of L = 2^32 - 16
    bytes and declares [PacketLen = 0]: the decoder derives
    0 - 13 - 1 - 2 = 2^32 - 16 in [uint32] and returns the packet as it was
    sent, although its declared length is not 16 + L. *)
Lemma C3_counterexample :
  wf_CustomPacket wrappedPacket /\
  Z.of_nat (length (Body wrappedPacket)) = 2 ^ 32 - 16 /\
  bodyLen wrappedPacket = 2 ^ 32 - 16 /\
  Decode (decoderOn (frame wrappedPacket) EOF 0)
  = (Ok (ptrCustomPacket (Some wrappedPacket)), decoderOn [] EOF 0) /\
  PacketLen wrappedPacket
  <> HeaderLen + SohLen + EohLen + Z.of_nat (length (Body wrappedPacket)).
Proof.
  assert (Hlen : Z.of_nat (length (repeat Byte.x00 (Z.to_nat (2 ^ 32 - 16))))
                 = 2 ^ 32 - 16)
    by (rewrite repeat_length; apply Z2Nat.id; lia).
  split; [| split; [exact Hlen | split; [reflexivity | split]]].
  - change (wf_Header shortHeader). repeat split; vm_compute; congruence.
  - exact (wrapped_frame_decodes _ Hlen).
  - change (PacketLen shortHeader
            <> HeaderLen + SohLen + EohLen
               + Z.of_nat (length (repeat Byte.x00 (Z.to_nat (2 ^ 32 - 16))))).
    rewrite Hlen. vm_compute. congruence.
Qed.

(** * Further properties of the codec *)

Section HeaderBytes.

Lemma byte_as_land (b : byte) :
  byte.unsigned b = Z.land (byte.unsigned b) (Z.ones 8).
Proof.
  rewrite Z.land_ones by lia. symmetry. apply Z.mod_small.
  apply byte.unsigned_range.
Qed.

Lemma of_Z_unsigned_mod (b : byte) (z : Z) :
  z mod 2 ^ 8 = byte.unsigned b -> byte.of_Z z = b.
Proof.
  intros H. apply byte.unsigned_inj.
  rewrite byte.unsigned_of_Z. exact H.
Qed.

Lemma PutUint16_Uint16 (b0 b1 : byte) (rest : list byte) :
  BigEndian.PutUint16 (BigEndian.Uint16 (b0 :: b1 :: rest)) = [b0; b1].
Proof.
  unfold BigEndian.PutUint16, BigEndian.Uint16, BigEndian.at_. cbn [nth].
  rewrite (byte_as_land b0), (byte_as_land b1).
  f_equal; [| f_equal]; apply of_Z_unsigned_mod;
    rewrite <- !byte_as_land; rewrite (byte_as_land b0), (byte_as_land b1);
    rewrite <- Z.land_ones by lia; Z.bitblast.
Qed.

Lemma PutUint32_Uint32 (b0 b1 b2 b3 : byte) (rest : list byte) :
  BigEndian.PutUint32 (BigEndian.Uint32 (b0 :: b1 :: b2 :: b3 :: rest))
  = [b0; b1; b2; b3].
Proof.
  unfold BigEndian.PutUint32, BigEndian.Uint32, BigEndian.at_. cbn [nth].
  do 4 (apply f_equal2; [apply of_Z_unsigned_mod;
    rewrite (byte_as_land b0), (byte_as_land b1), (byte_as_land b2), (byte_as_land b3);
    rewrite <- Z.land_ones by lia; Z.bitblast |]).
  reflexivity.
Qed.

Lemma Uint16_range (bs : list byte) : is_u16 (BigEndian.Uint16 bs).
Proof.
  unfold is_u16.
  assert (H : BigEndian.Uint16 bs = BigEndian.Uint16 bs mod 2 ^ 16).
  { unfold BigEndian.Uint16, BigEndian.at_.
    rewrite (byte_as_land (nth 0 bs Byte.x00)), (byte_as_land (nth 1 bs Byte.x00)).
    rewrite <- Z.land_ones by lia. Z.bitblast. }
  rewrite H. apply Z.mod_pos_bound. lia.
Qed.

Lemma Uint32_range (bs : list byte) : is_u32 (BigEndian.Uint32 bs).
Proof.
  unfold is_u32.
  assert (H : BigEndian.Uint32 bs = BigEndian.Uint32 bs mod 2 ^ 32).
  { unfold BigEndian.Uint32, BigEndian.at_.
    rewrite (byte_as_land (nth 0 bs Byte.x00)), (byte_as_land (nth 1 bs Byte.x00)),
            (byte_as_land (nth 2 bs Byte.x00)), (byte_as_land (nth 3 bs Byte.x00)).
    rewrite <- Z.land_ones by lia. Z.bitblast. }
  rewrite H. apply Z.mod_pos_bound. lia.
Qed.

Lemma wf_decode_Header (bs : list byte) : wf_Header (decode_Header bs).
Proof.
  unfold wf_Header, decode_Header; cbn [Seq ErrCode PacketLen CheckSum].
  auto using Uint16_range, Uint32_range.
Qed.

Lemma encode_decode_Header (bs : list byte) :
  length bs = 13%nat -> encode_Header (decode_Header bs) = bs.
Proof.
  intros H.
  do 13 (destruct bs as [| ? bs]; [discriminate H |]).
  destruct bs; [| discriminate H].
  unfold encode_Header, decode_Header; cbn [Seq ErrCode PacketLen Version CheckSum skipn nth].
  rewrite !PutUint32_Uint32, !PutUint16_Uint16. reflexivity.
Qed.

End HeaderBytes.

(** X1.  Every 13 bytes are a header: decoding them gives fields in range,
    and encoding that header gives the same 13 bytes back. *)
Theorem X1_Header_bytes_round_trip (bs : list byte) :
  length bs = 13%nat ->
  wf_Header (decode_Header bs) /\ encode_Header (decode_Header bs) = bs.
Proof.
  intros H. split; [apply wf_decode_Header | now apply encode_decode_Header].
Qed.

Lemma X1_witness :
  length (encode_Header shortHeader) = 13%nat /\
  wf_Header (decode_Header (encode_Header shortHeader)) /\
  encode_Header (decode_Header (encode_Header shortHeader))
  = encode_Header shortHeader.
Proof.
  split.
  - reflexivity.
  - apply (X1_Header_bytes_round_trip (encode_Header shortHeader)). reflexivity.
Defined.

Section DecodeCases.
Variables (c : error) (sz : Z).

Lemma on_br_ReadFull_spec (n : Z) (bs : list byte) :
  0 <= n ->
  on_br (io_ReadFull n) (decoderOn bs c sz) =
  if n <=? Z.of_nat (length bs)
  then (Ok (firstn (Z.to_nat n) bs), decoderOn (skipn (Z.to_nat n) bs) c sz)
  else (Err (short_read bs c), decoderOn [] c sz).
Proof.
  intros Hn.
  unfold on_br, decoderOn, defaultMessageDecoder, NewReaderSize; cbn [br].
  unfold io_ReadFull; cbn [rd incoming closing rsize].
  destruct (Z.leb_spec n 0) as [Hz | Hz].
  - assert (n = 0) by lia. subst n.
    destruct (Z.leb_spec 0 (Z.of_nat (length bs))); [reflexivity | lia].
  - destruct (Z.leb_spec n (Z.of_nat (length bs))); reflexivity.
Qed.

Lemma read_uint8_spec (bs : list byte) :
  on_br binary_Read_uint8 (decoderOn bs c sz) =
  match bs with
  | [] => (Err c, decoderOn [] c sz)
  | b :: rest => (Ok b, decoderOn rest c sz)
  end.
Proof.
  destruct bs as [| b rest]; [apply read_uint8_nil | apply read_uint8_cons].
Qed.

Lemma read_Header_short (bs : list byte) :
  (length bs < 13)%nat ->
  on_br binary_Read_Header (decoderOn bs c sz) =
  (Err (short_read bs c), decoderOn [] c sz).
Proof.
  intros Hlen.
  unfold on_br, decoderOn, defaultMessageDecoder, NewReaderSize; cbn [br].
  unfold binary_Read_Header.
  rewrite (bind_Err _ (io_ReadFull_short c dataSize_Header bs _
                         ltac:(unfold dataSize_Header; lia))).
  reflexivity.
Qed.

Lemma read_bytes_spec (n : Z) (bs : list byte) :
  0 <= n ->
  on_br (binary_Read_bytes n) (decoderOn bs c sz) =
  if n <=? Z.of_nat (length bs)
  then (Ok (firstn (Z.to_nat n) bs), decoderOn (skipn (Z.to_nat n) bs) c sz)
  else (Err (short_read bs c), decoderOn [] c sz).
Proof. apply on_br_ReadFull_spec. Qed.

(** What [Decode] does, by the number of bytes the source still has. *)
Lemma Decode_no_header (bs : list byte) :
  (length bs < 14)%nat ->
  Decode (decoderOn bs c sz) = (Err (short_read (tl bs) c), decoderOn [] c sz).
Proof.
  intros Hlen. unfold Decode. destruct bs as [| s t].
  - rewrite (bind_Err _ (read_uint8_nil c sz)). reflexivity.
  - rewrite (bind_Ok _ (read_uint8_cons c sz s t)).
    cbn [length] in Hlen.
    rewrite (bind_Err _ (read_Header_short t ltac:(lia))). reflexivity.
Qed.

Lemma Decode_short_body (s : byte) (hb tail : list byte) :
  length hb = 13%nat ->
  Z.of_nat (length tail) < bodyLen (decode_Header hb) ->
  Decode (decoderOn (s :: hb ++ tail) c sz)
  = (Err (short_read tail c), decoderOn [] c sz).
Proof.
  intros Hh Ht. rewrite Decode_past_raw_header by exact Hh.
  rewrite (bind_Err _ (read_bytes_short c sz _ tail Ht)). reflexivity.
Qed.

Lemma Decode_no_sentinel (s : byte) (hb body : list byte) :
  length hb = 13%nat ->
  Z.of_nat (length body) = bodyLen (decode_Header hb) ->
  Decode (decoderOn (s :: hb ++ body) c sz) = (Err c, decoderOn [] c sz).
Proof.
  intros Hh Hb. rewrite Decode_past_raw_header by exact Hh.
  rewrite <- (app_nil_r body) at 1.
  rewrite (bind_Ok _ (read_bytes_app c sz _ body [] (eq_sym Hb))).
  rewrite (bind_Err _ (read_uint8_nil c sz)). reflexivity.
Qed.

Lemma Decode_raw_frame (s : byte) (hb body : list byte) (e : byte) (rest : list byte) :
  length hb = 13%nat ->
  Z.of_nat (length body) = bodyLen (decode_Header hb) ->
  Decode (decoderOn (s :: hb ++ body ++ e :: rest) c sz)
  = (Ok (ptrCustomPacket
           (Some {| SOH := s; embedded := decode_Header hb; Body := body; EOH := e |})),
     decoderOn rest c sz).
Proof.
  intros Hh Hb. rewrite Decode_past_raw_header by exact Hh.
  rewrite (bind_Ok _ (read_bytes_app c sz _ body _ (eq_sym Hb))).
  rewrite (bind_Ok _ (read_uint8_cons c sz e rest)). reflexivity.
Qed.

(** Every stream falls under one of the four cases. *)
Lemma stream_cases (bs : list byte) :
  (length bs < 14)%nat \/
  exists s hb tail,
    bs = s :: hb ++ tail /\ length hb = 13%nat /\
    (Z.of_nat (length tail) < bodyLen (decode_Header hb) \/
     Z.of_nat (length tail) = bodyLen (decode_Header hb) \/
     exists body e rest,
       tail = body ++ e :: rest /\
       Z.of_nat (length body) = bodyLen (decode_Header hb)).
Proof.
  destruct (Nat.lt_ge_cases (length bs) 14) as [Hs | Hl]; [left; exact Hs | right].
  destruct bs as [| s t]; [cbn in Hl; lia |]. cbn [length] in Hl.
  exists s, (firstn 13 t), (skipn 13 t).
  assert (Hh : length (firstn 13 t) = 13%nat) by (rewrite length_firstn; lia).
  split; [now rewrite firstn_skipn |]. split; [exact Hh |].
  set (tail := skipn 13 t). set (n := bodyLen (decode_Header (firstn 13 t))).
  pose proof (bodyLen_range (decode_Header (firstn 13 t))) as Hr. fold n in Hr.
  destruct (Z.lt_trichotomy (Z.of_nat (length tail)) n) as [H | [H | H]];
    [left; exact H | right; left; exact H | right; right].
  assert (Hn : (Z.to_nat n < length tail)%nat) by lia.
  destruct (skipn (Z.to_nat n) tail) as [| e rest] eqn:Hsk.
  - apply (f_equal (@length byte)) in Hsk. rewrite length_skipn in Hsk.
    cbn [length] in Hsk. lia.
  - exists (firstn (Z.to_nat n) tail), e, rest. split.
    + rewrite <- Hsk. now rewrite firstn_skipn.
    + rewrite length_firstn. lia.
Qed.

End DecodeCases.

Lemma short_read_kind (bs : list byte) (c : error) :
  short_read bs c = c \/ (c = EOF /\ short_read bs c = ErrUnexpectedEOF).
Proof.
  destruct bs; [left; reflexivity |]. destruct c; cbn; auto.
Qed.

Lemma firstn_13_header (hb tail : list byte) :
  length hb = 13%nat -> firstn 13 (hb ++ tail) = hb.
Proof. intros <-. apply firstn_length_app. Qed.

(** X2.  What [Decode] returns is what it took from the stream: a packet
    returned by [Decode] is a [*CustomPacket] with every field in range and
    a body of the derived length, its frame is exactly the bytes consumed,
    and the rest of the stream is left unread. *)
Theorem X2_Decode_returns_what_it_consumed (bs : list byte) (c : error) (sz : Z)
        (q : Packet) (d' : CustomPacketDecoder) :
  Decode (decoderOn bs c sz) = (Ok q, d') ->
  exists p,
    q = ptrCustomPacket (Some p) /\
    wf_CustomPacket p /\
    Z.of_nat (length (Body p)) = bodyLen p /\
    bs = frame p ++ unread d' /\
    d' = decoderOn (unread d') c sz.
Proof.
  intros H.
  destruct (stream_cases bs) as [Hs | (s & hb & tail & -> & Hh & Ht)].
  - rewrite Decode_no_header in H by exact Hs. discriminate H.
  - destruct Ht as [Ht | [Ht | (body & e & rest & -> & Hb)]].
    + rewrite Decode_short_body in H by assumption. discriminate H.
    + rewrite Decode_no_sentinel in H by assumption. discriminate H.
    + rewrite Decode_raw_frame in H by assumption.
      inversion H; subst q d'; clear H.
      eexists. split; [reflexivity |].
      split; [apply wf_decode_Header |].
      split; [exact Hb |]. split; [| reflexivity].
      rewrite frame_cons. cbn [SOH embedded Body EOH unread decoderOn
                                defaultMessageDecoder NewReaderSize br rd incoming].
      now rewrite encode_decode_Header.
Qed.

(** X3.  [Decode] returns a packet exactly when the source still has the
    start sentinel, the 13 bytes of the header, as many body bytes as the
    header makes the decoder derive, and one byte more for the end
    sentinel. *)
Theorem X3_Decode_succeeds_iff (bs : list byte) (c : error) (sz : Z) :
  (exists q d', Decode (decoderOn bs c sz) = (Ok q, d')) <->
  (14 <= length bs)%nat /\
  15 + bodyLen (decode_Header (firstn 13 (tl bs))) <= Z.of_nat (length bs).
Proof.
  destruct (stream_cases bs) as [Hs | (s & hb & tail & -> & Hh & Ht)].
  - rewrite Decode_no_header by exact Hs. split.
    + intros (q & d' & H). discriminate H.
    + intros [H _]. lia.
  - cbn [tl]. rewrite (firstn_13_header hb tail Hh).
    cbn [length]. rewrite length_app, Hh.
    destruct Ht as [Ht | [Ht | (body & e & rest & -> & Hb)]].
    + rewrite Decode_short_body by assumption. split.
      * intros (q & d' & H). discriminate H.
      * intros [_ H]. lia.
    + rewrite Decode_no_sentinel by assumption. split.
      * intros (q & d' & H). discriminate H.
      * intros [_ H]. lia.
    + rewrite Decode_raw_frame by assumption. split.
      * intros _. rewrite length_app. cbn [length]. lia.
      * intros _. eauto.
Qed.

(** X4.  [Decode] on a decoder made by [defaultMessageDecoder] returns a
    packet or an error, it does not panic.  When it returns an error it has
    consumed all the source had, the error is the one of the source, or
    [ErrUnexpectedEOF] in place of [EOF], and the next [Decode] returns the
    error of the source. *)
Theorem X4_Decode_failure_drains (bs : list byte) (c : error) (sz : Z) :
  (exists q d', Decode (decoderOn bs c sz) = (Ok q, d')) \/
  (exists e,
      Decode (decoderOn bs c sz) = (Err e, decoderOn [] c sz) /\
      (e = c \/ (c = EOF /\ e = ErrUnexpectedEOF)) /\
      Decode (decoderOn [] c sz) = (Err c, decoderOn [] c sz)).
Proof.
  assert (Hnil : Decode (decoderOn [] c sz) = (Err c, decoderOn [] c sz))
    by (apply (Decode_no_header c sz []); cbn; lia).
  destruct (stream_cases bs) as [Hs | (s & hb & tail & -> & Hh & Ht)].
  - right. eexists. split; [apply Decode_no_header; exact Hs |].
    split; [apply short_read_kind | exact Hnil].
  - destruct Ht as [Ht | [Ht | (body & e & rest & -> & Hb)]].
    + right. eexists. split; [apply Decode_short_body; assumption |].
      split; [apply short_read_kind | exact Hnil].
    + right. eexists. split; [apply Decode_no_sentinel; assumption |].
      split; [left; reflexivity | exact Hnil].
    + left. do 2 eexists. apply Decode_raw_frame; assumption.
Qed.

Lemma decode_own_Header (p : CustomPacket) :
  wf_CustomPacket p -> decode_Header (encode_Header p) = embedded p.
Proof.
  intros Hw. rewrite <- (app_nil_r (encode_Header p)).
  now apply decode_encode_Header.
Qed.

Lemma firstn_frame (p : CustomPacket) (k : nat) :
  (14 <= k <= 14 + length (Body p))%nat ->
  firstn k (frame p) = SOH p :: encode_Header p ++ firstn (k - 14) (Body p).
Proof.
  intros Hk. rewrite <- (app_nil_r (frame p)), frame_cons.
  destruct k as [| k']; [lia |]. cbn [firstn]. f_equal.
  rewrite firstn_app, length_encode_Header.
  rewrite firstn_all2 by (rewrite length_encode_Header; lia). f_equal.
  replace (S k' - 14)%nat with (k' - 13)%nat by lia.
  rewrite firstn_app.
  replace (k' - 13 - length (Body p))%nat with 0%nat by lia.
  now rewrite firstn_O, app_nil_r.
Qed.

Lemma short_read_nonempty (bs : list byte) (c : error) :
  (0 < length bs)%nat ->
  short_read bs c = match c with EOF => ErrUnexpectedEOF | _ => c end.
Proof. destruct bs; [cbn; lia | reflexivity]. Qed.

Lemma short_read_empty (bs : list byte) (c : error) :
  length bs = 0%nat -> short_read bs c = c.
Proof. destruct bs; [reflexivity | discriminate]. Qed.

(** X5.  Every proper prefix of a frame is refused, with the source
    drained.  The error is the plain error of the source ([EOF]) not only for
    the empty stream but also when the stream stops right after the start
    sentinel, right after the header or right before the end sentinel;
    everywhere else [EOF] becomes [ErrUnexpectedEOF]. *)
Theorem X5_Decode_cut_frame (p : CustomPacket) (k : nat) (c : error) (sz : Z) :
  wf_CustomPacket p ->
  Z.of_nat (length (Body p)) = bodyLen p ->
  (k < length (frame p))%nat ->
  Decode (decoderOn (firstn k (frame p)) c sz) =
  (Err (if ((k =? 0) || (k =? 1) || (k =? 14) || (k =? 14 + length (Body p)))%nat
        then c
        else match c with EOF => ErrUnexpectedEOF | _ => c end),
   decoderOn [] c sz).
Proof.
  intros Hw Hb Hk. rewrite length_frame in Hk.
  destruct (Nat.lt_ge_cases k 14) as [Hs | Hl].
  - assert (Hlen : length (firstn k (frame p)) = k)
      by (rewrite length_firstn, length_frame; lia).
    rewrite Decode_no_header by (rewrite Hlen; exact Hs).
    assert (Htl : length (tl (firstn k (frame p))) = (k - 1)%nat)
      by (destruct (firstn k (frame p)); cbn [tl length] in *; lia).
    f_equal. f_equal.
    destruct (Nat.eqb_spec k 0); [cbn [orb]; apply short_read_empty; lia |].
    destruct (Nat.eqb_spec k 1); [cbn [orb]; apply short_read_empty; lia |].
    destruct (Nat.eqb_spec k 14); [lia |].
    destruct (Nat.eqb_spec k (14 + length (Body p))); [lia |].
    cbn [orb]. apply short_read_nonempty. lia.
  - rewrite firstn_frame by lia.
    assert (Hh : length (encode_Header p) = 13%nat) by apply length_encode_Header.
    assert (Hlen : length (firstn (k - 14) (Body p)) = (k - 14)%nat)
      by (rewrite length_firstn; lia).
    destruct (Nat.eqb_spec k (14 + length (Body p))) as [He | Hne].
    + rewrite orb_true_r.
      apply Decode_no_sentinel; [exact Hh |].
      rewrite decode_own_Header by exact Hw. rewrite Hlen, <- Hb. lia.
    + rewrite orb_false_r.
      rewrite Decode_short_body;
        [| exact Hh | rewrite decode_own_Header by exact Hw; rewrite Hlen, <- Hb; lia].
      f_equal. f_equal.
      destruct (Nat.eqb_spec k 0); [lia |].
      destruct (Nat.eqb_spec k 1); [lia |].
      destruct (Nat.eqb_spec k 14); cbn [orb].
      * apply short_read_empty. lia.
      * apply short_read_nonempty. lia.
Qed.

(** X6.  A header that declares fewer body bytes than were sent is not
    detected: [Decode] returns a packet with the first [n] bytes of the body,
    takes the next body byte for the end sentinel and leaves the remainder of
    the body and the real end sentinel in the stream for the next call. *)
Theorem X6_Decode_underdeclared (s e : byte) (h : Header) (body rest : list byte)
        (n : nat) (c : error) (sz : Z) :
  wf_Header h ->
  PacketLen h = HeaderLen + SohLen + EohLen + Z.of_nat n ->
  (n < length body)%nat ->
  Decode (decoderOn (s :: encode_Header h ++ body ++ e :: rest) c sz) =
  (Ok (ptrCustomPacket
         (Some {| SOH := s; embedded := h; Body := firstn n body;
                  EOH := nth n body Byte.x00 |})),
   decoderOn (skipn (S n) body ++ e :: rest) c sz).
Proof.
  intros Hh Hl Hn.
  assert (Hsplit : body = firstn n body ++ nth n body Byte.x00 :: skipn (S n) body).
  { rewrite <- (firstn_skipn n body) at 1. f_equal.
    clear - Hn. revert body Hn. induction n as [| n IH]; intros [| b body] Hn;
      cbn [length] in Hn; try lia; [reflexivity |].
    cbn [skipn nth]. apply IH. lia. }
  rewrite Hsplit at 1. rewrite <- app_assoc. cbn [app].
  apply Decode_frame; [exact Hh |].
  rewrite length_firstn, Nat.min_l by lia.
  rewrite bodyLen_mod. destruct Hh as (_ & _ & Hr & _).
  unfold is_u32, HeaderLen, SohLen, EohLen in *.
  rewrite Z.mod_small; lia.
Qed.

Lemma X2_witness :
  Decode (decoderOn (frame samplePacket ++ [Byte.x01]) EOF 0)
  = (Ok (ptrCustomPacket (Some samplePacket)), decoderOn [Byte.x01] EOF 0) /\
  exists p,
    ptrCustomPacket (Some samplePacket) = ptrCustomPacket (Some p) /\
    wf_CustomPacket p /\
    Z.of_nat (length (Body p)) = bodyLen p /\
    frame samplePacket ++ [Byte.x01] = frame p ++ unread (decoderOn [Byte.x01] EOF 0) /\
    decoderOn [Byte.x01] EOF 0
    = decoderOn (unread (decoderOn [Byte.x01] EOF 0)) EOF 0.
Proof.
  assert (H : Decode (decoderOn (frame samplePacket ++ [Byte.x01]) EOF 0)
              = (Ok (ptrCustomPacket (Some samplePacket)),
                 decoderOn [Byte.x01] EOF 0))
    by (vm_compute; reflexivity).
  split; [exact H |].
  apply (X2_Decode_returns_what_it_consumed
           (frame samplePacket ++ [Byte.x01]) EOF 0
           (ptrCustomPacket (Some samplePacket)) (decoderOn [Byte.x01] EOF 0)).
  exact H.
Defined.

Lemma X5_witness :
  wf_CustomPacket samplePacket /\
  Z.of_nat (length (Body samplePacket)) = bodyLen samplePacket /\
  (16 < length (frame samplePacket))%nat /\
  Decode (decoderOn (firstn 16 (frame samplePacket)) EOF 0) =
  (Err (if ((16 =? 0) || (16 =? 1) || (16 =? 14)
            || (16 =? 14 + length (Body samplePacket)))%nat
        then EOF
        else match EOF with EOF => ErrUnexpectedEOF | _ => EOF end),
   decoderOn [] EOF 0).
Proof.
  assert (Hw : wf_CustomPacket samplePacket)
    by (repeat split; vm_compute; congruence).
  assert (Hk : (16 < length (frame samplePacket))%nat) by (cbn; lia).
  split; [exact Hw |]. split; [reflexivity |]. split; [exact Hk |].
  apply (X5_Decode_cut_frame samplePacket 16 EOF 0).
  - exact Hw.
  - reflexivity.
  - exact Hk.
Defined.

Lemma X6_witness :
  wf_Header trueLengthHeader /\
  PacketLen trueLengthHeader = HeaderLen + SohLen + EohLen + Z.of_nat 4 /\
  (4 < length hello)%nat /\
  Decode (decoderOn (Byte.x01 :: encode_Header trueLengthHeader
                              ++ hello ++ Byte.x04 :: []) EOF 0) =
  (Ok (ptrCustomPacket
         (Some {| SOH := Byte.x01; embedded := trueLengthHeader;
                  Body := firstn 4 hello; EOH := nth 4 hello Byte.x00 |})),
   decoderOn (skipn 5 hello ++ Byte.x04 :: []) EOF 0).
Proof.
  assert (Hw : wf_Header trueLengthHeader)
    by (repeat split; vm_compute; congruence).
  assert (Hn : (4 < length hello)%nat) by (cbn; lia).
  split; [exact Hw |]. split; [reflexivity |]. split; [exact Hn |].
  apply (X6_Decode_underdeclared Byte.x01 Byte.x04 trueLengthHeader hello [] 4 EOF 0).
  - exact Hw.
  - reflexivity.
  - exact Hn.
Defined.

Section WriterAny.

Lemma sink_Write_received (s : Sink) (p : list byte) :
  let '(n, err, s') := sink_Write s p in
  received s' = received s ++ firstn n p /\
  (err = None -> n = length p).
Proof.
  unfold sink_Write. destruct (quota s) as [[k e] |].
  - destruct (Nat.leb_spec (length p) k) as [Hle | Hgt]; cbn [received].
    + now rewrite firstn_all.
    + split; [reflexivity | discriminate].
  - cbn [received]. now rewrite firstn_all.
Qed.

Lemma bufio_Flush_any (w : Writer) :
  let '(r, w') := bufio_Flush w in
  stream w' = stream w /\ size w' = size w /\
  match r with
  | None => werr w' = None /\ buf w' = [] /\ werr w = None
  | Some e => werr w' = Some e
  end /\
  ((length (buf w) <= size w)%nat -> (length (buf w') <= size w')%nat).
Proof.
  unfold bufio_Flush, Buffered.
  destruct (werr w) as [e |] eqn:He.
  - rewrite He. auto.
  - destruct (Nat.eqb_spec (length (buf w)) 0) as [Hz | Hnz].
    + rewrite He. repeat split; auto.
      destruct (buf w); [reflexivity | discriminate].
    + pose proof (sink_Write_received (wr w) (buf w)) as Hs.
      destruct (sink_Write (wr w) (buf w)) as [[n err] s].
      destruct Hs as [Hr Hn].
      destruct err as [e |]; unfold stream; cbn [wr buf size werr].
      * rewrite Hr, <- app_assoc, firstn_skipn. repeat split.
        intros Hb. rewrite length_skipn. lia.
      * rewrite Hr, (Hn eq_refl), firstn_all, app_nil_r. repeat split.
        cbn [length]. lia.
Qed.

Lemma write_pass_any (w : Writer) (p : list byte) :
  werr w = None ->
  let '(w', p') := write_pass w p in
  exists written,
    p = written ++ p' /\ stream w' = stream w ++ written /\ size w' = size w /\
    (werr w' = None -> buf w' = [] /\ (buf w = [] -> p' = [])) /\
    ((length (buf w) <= size w)%nat -> (length (buf w') <= size w')%nat).
Proof.
  intros He. unfold write_pass, Buffered.
  destruct (Nat.eqb_spec (length (buf w)) 0) as [Hz | Hnz].
  - pose proof (sink_Write_received (wr w) p) as Hs.
    destruct (sink_Write (wr w) p) as [[n err] s]. destruct Hs as [Hr Hn].
    assert (Hb : buf w = []) by (destruct (buf w); [reflexivity | discriminate]).
    exists (firstn n p). unfold stream; cbn [wr buf size werr].
    rewrite firstn_skipn, Hr, Hb, !app_nil_r.
    split; [reflexivity |]. split; [reflexivity |]. split; [reflexivity |].
    split.
    + intros Hnone. split; [reflexivity |].
      intros _. rewrite (Hn Hnone). apply skipn_all.
    + cbn [length]. lia.
  - pose proof (bufio_Flush_any
                  {| wr := wr w; buf := buf w ++ firstn (Available w) p;
                     size := size w; werr := werr w |}) as Hf.
    destruct (bufio_Flush _) as [r w'] eqn:Hfl. cbn [snd].
    destruct Hf as (Hst & Hsz & Hr & Hbound).
    exists (firstn (Available w) p).
    rewrite firstn_skipn, Hst. unfold stream at 1; cbn [wr buf size] in *.
    split; [reflexivity |]. split; [unfold stream; now rewrite app_assoc |].
    split; [exact Hsz |]. split.
    + intros Hnone. destruct r as [e |]; [congruence |].
      destruct Hr as (_ & Hb & _). split; [exact Hb |].
      intros Hnil. rewrite Hnil in Hnz. contradiction.
    + intros Hb. apply Hbound. rewrite length_app, length_firstn.
      unfold Available. lia.
Qed.

Lemma guarded_pass_any (w : Writer) (p : list byte) :
  let '(w', p') := guarded_pass w p in
  exists written,
    p = written ++ p' /\ stream w' = stream w ++ written /\ size w' = size w /\
    ((length (buf w) <= size w)%nat -> (length (buf w') <= size w')%nat) /\
    (werr w = None \/ w' = w).
Proof.
  unfold guarded_pass. destruct (write_more w p) eqn:Hm.
  - apply write_more_true in Hm as [He _].
    pose proof (write_pass_any w p He) as H.
    destruct (write_pass w p) as [w' p'].
    destruct H as (written & H1 & H2 & H3 & _ & H5).
    exists written. auto 10.
  - exists []. rewrite app_nil_r. auto 10.
Qed.

(** Whatever the sink does, a [Write] hands on a prefix of [p], all of [p]
    when it returns nil, and stores the error it returns in the writer. *)
Lemma bufio_Write_any (w : Writer) (p : list byte) :
  let '(r, w') := bufio_Write w p in
  exists written rest,
    p = written ++ rest /\ stream w' = stream w ++ written /\
    size w' = size w /\
    match r with
    | None => rest = [] /\ werr w' = None /\ werr w = None
    | Some e => werr w' = Some e
    end /\
    ((length (buf w) <= size w)%nat -> (length (buf w') <= size w')%nat).
Proof.
  unfold bufio_Write.
  pose proof (write_loop_ends w p) as Hend.
  unfold write_loop in *.
  pose proof (guarded_pass_any w p) as H1.
  destruct (guarded_pass w p) as [b1 p1].
  destruct H1 as (w1 & Hp1 & Hs1 & Hz1 & Hb1 & Hk1).
  pose proof (guarded_pass_any b1 p1) as H2.
  destruct (guarded_pass b1 p1) as [b2 p2].
  destruct H2 as (w2 & Hp2 & Hs2 & Hz2 & Hb2 & Hk2).
  destruct (werr b2) as [e |] eqn:He2.
  - exists (w1 ++ w2), p2. rewrite Hp1, Hp2, Hs2, Hs1, <- !app_assoc.
    repeat split; try congruence. auto.
  - apply write_more_false in Hend; [| exact He2].
    exists (w1 ++ w2 ++ p2), [].
    assert (Hst : stream {| wr := wr b2; buf := buf b2 ++ firstn (Available b2) p2;
                            size := size b2; werr := None |}
                  = stream b2 ++ p2)
      by (unfold stream; cbn [wr buf]; rewrite (firstn_all2 _ Hend); apply app_assoc).
    rewrite Hst. cbn [size werr wr buf].
    rewrite app_nil_r, Hp1, Hp2, Hs2, Hs1, <- !app_assoc.
    repeat split; try congruence.
    + destruct Hk2 as [Hk2 | Hk2]; destruct Hk1 as [Hk1 | Hk1]; congruence.
    + intros Hb. rewrite length_app, length_firstn. unfold Available in *.
      specialize (Hb2 (Hb1 Hb)). lia.
Qed.

End WriterAny.

Section EncoderAny.

Lemma hands_on_Write (data : list byte) :
  hands_on data (on_bw (binary_Write data)).
Proof.
  intros w. unfold on_bw, binary_Write; cbn [bw].
  pose proof (bufio_Write_any w data) as H.
  destruct (bufio_Write w data) as [r w'].
  destruct H as (written & rest & H1 & H2 & H3 & H4 & H5).
  destruct r as [e |].
  - exists (Err e), w', written, rest. auto 10.
  - exists (Ok tt), w', written, rest. auto 10.
Qed.

Lemma hands_on_then_ret (data : list byte) (m : M CustomPacketEncoder unit) :
  hands_on data m -> hands_on data (m ;;; ret tt).
Proof.
  intros H w. destruct (H w) as (r & w' & written & rest & E & Hrest).
  exists r, w', written, rest. split; [| exact Hrest].
  unfold bind. rewrite E. destruct r as [[] | e | why]; reflexivity.
Qed.

Lemma hands_on_bind (d1 d2 : list byte) (m1 m2 : M CustomPacketEncoder unit) :
  hands_on d1 m1 -> hands_on d2 m2 -> hands_on (d1 ++ d2) (m1 ;;; m2).
Proof.
  intros H1 H2 w.
  destruct (H1 w) as (r1 & w1 & wr1 & rest1 & E1 & D1 & S1 & Z1 & R1 & B1).
  unfold bind. rewrite E1. destruct r1 as [u | e | why].
  - destruct (H2 w1) as (r2 & w2 & wr2 & rest2 & E2 & D2 & S2 & Z2 & R2 & B2).
    destruct R1 as (-> & N1 & N0). rewrite app_nil_r in D1. subst wr1.
    exists r2, w2, (d1 ++ wr2), rest2. rewrite E2, S2, S1, D2, <- !app_assoc.
    repeat split; try congruence; auto.
    destruct r2; intuition congruence.
  - exists (Err e), w1, wr1, (rest1 ++ d2). rewrite D1, <- app_assoc.
    repeat split; auto.
  - contradiction.
Qed.

Lemma hands_on_Encode (p : CustomPacket) :
  hands_on (frame p) (Encode (ptrCustomPacket (Some p))).
Proof.
  unfold Encode, frame.
  repeat apply hands_on_bind; try apply hands_on_Write.
  apply hands_on_then_ret, hands_on_Write.
Qed.

End EncoderAny.

(** X9.  Whatever the sink does and whatever the buffer size, [Encode] of
    a [*CustomPacket] does not panic and adds to the bytes written so far a
    prefix of the frame, nothing else and nothing out of order: the whole
    frame when it returns nil, and when it returns an error that error is
    kept in the writer. *)
Theorem X9_Encode_hands_on_a_prefix (w : Writer) (p : CustomPacket) :
  exists r w' written rest,
    Encode (ptrCustomPacket (Some p)) {| bw := Some w |}
    = (r, {| bw := Some w' |}) /\
    frame p = written ++ rest /\
    stream w' = stream w ++ written /\
    match r with
    | Ok _ => rest = [] /\ werr w' = None
    | Err e => werr w' = Some e
    | Panic _ => False
    end.
Proof.
  destruct (hands_on_Encode p w)
    as (r & w' & written & rest & E & D & S & _ & R & _).
  exists r, w', written, rest. repeat split; try assumption.
  destruct r; intuition.
Qed.

Lemma bufio_Write_pending (w : Writer) (p : list byte) (err : error) :
  werr w = Some err -> bufio_Write w p = (Some err, w).
Proof.
  intros He.
  unfold bufio_Write, write_loop, guarded_pass, write_more.
  rewrite He, andb_false_r. cbv beta iota zeta.
  rewrite He, andb_false_r. cbv beta iota zeta.
  rewrite He. reflexivity.
Qed.

Lemma Flush_empty (e : CustomPacketEncoder) :
  match bw e with
  | None => True
  | Some w => buf w = [] /\ werr w = None
  end ->
  Flush e = (Ok tt, e).
Proof.
  unfold Flush, bufio_Flush, Buffered. destruct e as [[w |]]; cbn [bw].
  - intros [Hb He]. rewrite He, Hb. cbn [length Nat.eqb]. reflexivity.
  - reflexivity.
Qed.

(** X10.  Once the writer holds an error, [Encode] and [Flush] return that
    error and change nothing. *)
Theorem X10_pending_error_blocks (w : Writer) (p : CustomPacket) (err : error) :
  werr w = Some err ->
  Encode (ptrCustomPacket (Some p)) {| bw := Some w |}
  = (Err err, {| bw := Some w |}) /\
  Flush {| bw := Some w |} = (Err err, {| bw := Some w |}).
Proof.
  intros He. split.
  - unfold Encode. apply bind_Err.
    unfold on_bw, binary_Write; cbn [bw].
    rewrite (bufio_Write_pending w _ err He). reflexivity.
  - unfold Flush, bufio_Flush; cbn [bw]. rewrite He. reflexivity.
Qed.

(** X11.  [Flush] on an encoder without writer, or with an empty buffer
    and no pending error, returns nil and changes nothing. *)
Theorem X11_Flush_nothing_to_do (e : CustomPacketEncoder) :
  match bw e with
  | None => True
  | Some w => buf w = [] /\ werr w = None
  end ->
  Flush e = (Ok tt, e).
Proof. apply Flush_empty. Qed.

(** X12.  [Flush] neither loses nor reorders bytes, whether the sink
    accepts them or not.  When it returns nil the buffer is empty, the sink
    has everything written so far, and a second [Flush] does nothing; when it
    returns an error, the error is kept in the writer. *)
Theorem X12_Flush_pushes_everything (w : Writer) :
  exists r w',
    Flush {| bw := Some w |} = (r, {| bw := Some w' |}) /\
    stream w' = stream w /\
    match r with
    | Ok _ => buf w' = [] /\ received (wr w') = stream w /\
              Flush {| bw := Some w' |} = (Ok tt, {| bw := Some w' |})
    | Err e => werr w' = Some e
    | Panic _ => False
    end.
Proof.
  unfold Flush at 1; cbn [bw].
  pose proof (bufio_Flush_any w) as H.
  destruct (bufio_Flush w) as [r w']. destruct H as (Hs & _ & Hr & _).
  destruct r as [e |].
  - exists (Err e), w'. auto.
  - destruct Hr as (He & Hb & _). exists (Ok tt), w'.
    split; [reflexivity |]. split; [exact Hs |].
    split; [exact Hb |]. split.
    + rewrite <- Hs. unfold stream. rewrite Hb. now rewrite app_nil_r.
    + apply (Flush_empty {| bw := Some w' |}). cbn [bw]. auto.
Qed.

(** X13.  [Encode] and [Flush] keep the buffer within its size, whatever
    the packet, the sink and the outcome. *)
Theorem X13_buffer_within_capacity (e : CustomPacketEncoder) (p : Packet) :
  within_capacity e ->
  within_capacity (snd (Encode p e)) /\ within_capacity (snd (Flush e)).
Proof.
  unfold within_capacity. destruct e as [[w |]]; cbn [bw]; intros Hb.
  - split.
    + destruct p as [| [q |] | T methods v];
        try (unfold Encode; cbn [snd bw]; exact Hb).
      destruct (hands_on_Encode q w)
        as (r & w' & written & rest & E & _ & _ & _ & _ & B).
      rewrite E. cbn [snd bw]. exact (B Hb).
    + unfold Flush; cbn [bw].
      pose proof (bufio_Flush_any w) as H.
      destruct (bufio_Flush w) as [[err |] w']; cbn [snd bw]; apply H, Hb.
  - split.
    + destruct p as [| [q |] | T methods v];
        unfold Encode, bind, on_bw; cbn [snd bw]; exact I.
    + exact I.
Qed.

Lemma X13_witness :
  within_capacity (defaultMessageEncoder openSink 4) /\
  within_capacity
    (snd (Encode (ptrCustomPacket (Some samplePacket))
                 (defaultMessageEncoder openSink 4))) /\
  within_capacity (snd (Flush (defaultMessageEncoder openSink 4))).
Proof.
  assert (H : within_capacity (defaultMessageEncoder openSink 4))
    by (cbn; lia).
  split; [exact H |].
  apply (X13_buffer_within_capacity (defaultMessageEncoder openSink 4)
           (ptrCustomPacket (Some samplePacket))).
  exact H.
Defined.

Section Calls.

Lemma do_calls_app (a b : list call) (e : CustomPacketEncoder) :
  do_calls (a ++ b) e = (do_calls a ;;; do_calls b) e.
Proof.
  revert e. induction a as [| k a IH]; intros e; cbn [app do_calls].
  - reflexivity.
  - unfold bind. destruct (do_call k e) as [[u | err | why] e1];
      [| reflexivity | reflexivity].
    rewrite IH. reflexivity.
Qed.

Lemma frames_of_Encodes (ps : list CustomPacket) :
  frames_of (map CallEncode ps) = concat (map frame ps).
Proof.
  induction ps as [| p ps IH]; cbn [map frames_of concat]; [| rewrite IH];
    reflexivity.
Qed.

Lemma do_calls_healthy (ks : list call) (w : Writer) :
  healthy w ->
  exists w',
    do_calls ks {| bw := Some w |} = (Ok tt, {| bw := Some w' |}) /\
    healthy w' /\ stream w' = stream w ++ frames_of ks /\ size w' = size w.
Proof.
  revert w. induction ks as [| k ks IH]; intros w Hw; cbn [do_calls frames_of].
  - exists w. rewrite app_nil_r. auto.
  - destruct k as [p |]; cbn [do_call].
    + destruct (Encode_healthy w p Hw) as (w1 & E1 & H1 & S1 & Z1).
      destruct (IH w1 H1) as (w2 & E2 & H2 & S2 & Z2).
      exists w2. rewrite (bind_Ok _ E1), E2, S2, S1, <- app_assoc.
      repeat split; try apply H2; congruence.
    + rewrite (bind_Ok _ (Flush_healthy w Hw)).
      match goal with |- context [do_calls ks {| bw := Some ?x |}] => set (w1 := x) end.
      assert (H1 : healthy w1) by (split; reflexivity).
      destruct (IH w1 H1) as (w2 & E2 & H2 & S2 & Z2).
      exists w2. rewrite E2, S2.
      assert (S1 : stream w1 = stream w)
        by (unfold stream at 1, w1; cbn [wr received buf]; apply app_nil_r).
      rewrite S1. repeat split; try apply H2. exact Z2.
Qed.

End Calls.

(** X14.  On a sink that accepts the data, where the caller puts its
    [Flush] calls and how large the buffer is does not show on the wire: any
    sequence of [Encode] and [Flush] calls that ends with a [Flush] returns
    nil and has transmitted the frames of the encoded packets, in order. *)
Theorem X14_flush_placement_is_invisible (ks : list call) (wsize : Z) :
  exists e',
    do_calls (ks ++ [CallFlush]) (defaultMessageEncoder openSink wsize)
    = (Ok tt, e') /\
    transmitted e' = frames_of ks.
Proof.
  destruct (do_calls_healthy ks (NewWriterSize openSink wsize)
              (healthy_NewWriterSize wsize)) as (w & E & H & S & _).
  eexists. split.
  - rewrite do_calls_app. unfold defaultMessageEncoder.
    rewrite (bind_Ok _ E). cbn [do_calls do_call].
    rewrite (bind_Ok _ (Flush_healthy w H)). reflexivity.
  - cbn [transmitted bw wr received]. rewrite S. reflexivity.
Qed.

(** X7.  Any number of consistent frames one after the other are returned
    by as many calls of [Decode], in the order sent, and what follows them is
    left unread. *)
Theorem X7_Decode_times_in_order (ps : list CustomPacket) (rest : list byte)
        (c : error) (sz : Z) :
  Forall (fun p => wf_CustomPacket p /\ consistent p) ps ->
  Decode_times (length ps) (decoderOn (concat (map frame ps) ++ rest) c sz)
  = (Ok (map (fun p => ptrCustomPacket (Some p)) ps), decoderOn rest c sz).
Proof.
  induction 1 as [| p ps [Hw Hc] _ IH]; cbn [length Decode_times map concat].
  - reflexivity.
  - rewrite <- app_assoc.
    rewrite (bind_Ok _ (Decode_consistent_frame p _ c sz Hw Hc)).
    rewrite (bind_Ok _ IH). reflexivity.
Qed.

Lemma X7_witness :
  Forall (fun p => wf_CustomPacket p /\ consistent p)
         [samplePacket; with_Body (SetErrCode samplePacket 65541) hello] /\
  Decode_times 2
    (decoderOn (concat (map frame [samplePacket;
                                   with_Body (SetErrCode samplePacket 65541) hello])
                ++ [Byte.x01]) EOF 0)
  = (Ok (map (fun p => ptrCustomPacket (Some p))
             [samplePacket; with_Body (SetErrCode samplePacket 65541) hello]),
     decoderOn [Byte.x01] EOF 0).
Proof.
  assert (H : Forall (fun p => wf_CustomPacket p /\ consistent p)
                [samplePacket; with_Body (SetErrCode samplePacket 65541) hello]).
  { repeat constructor; try (vm_compute; congruence). }
  split; [exact H |].
  apply (X7_Decode_times_in_order
           [samplePacket; with_Body (SetErrCode samplePacket 65541) hello]
           [Byte.x01] EOF 0).
  exact H.
Defined.

(** X8.  Frames that decode to their packets form a prefix code: when two
    of them, each followed by more bytes, give the same stream, the packets
    are equal and so are the bytes that follow. *)
Theorem X8_frames_are_prefix_free (p q : CustomPacket) (r1 r2 : list byte) :
  wf_CustomPacket p -> bodyLen p = Z.of_nat (length (Body p)) ->
  wf_CustomPacket q -> bodyLen q = Z.of_nat (length (Body q)) ->
  frame p ++ r1 = frame q ++ r2 ->
  p = q /\ r1 = r2.
Proof.
  intros Hwp Hbp Hwq Hbq Heq.
  pose proof (Decode_own_frame p r1 EOF 0 Hwp Hbp) as Dp.
  pose proof (Decode_own_frame q r2 EOF 0 Hwq Hbq) as Dq.
  rewrite Heq, Dq in Dp. inversion Dp. auto.
Qed.

Lemma X8_witness :
  wf_CustomPacket samplePacket /\
  bodyLen samplePacket = Z.of_nat (length (Body samplePacket)) /\
  frame samplePacket ++ [Byte.x01] = frame samplePacket ++ [Byte.x01] /\
  samplePacket = samplePacket /\ [Byte.x01] = [Byte.x01].
Proof.
  assert (Hw : wf_CustomPacket samplePacket)
    by (repeat split; vm_compute; congruence).
  split; [exact Hw |]. split; [reflexivity |]. split; [reflexivity |].
  apply (X8_frames_are_prefix_free samplePacket samplePacket [Byte.x01] [Byte.x01]).
  - exact Hw.
  - reflexivity.
  - exact Hw.
  - reflexivity.
  - reflexivity.
Defined.

Lemma X10_witness :
  werr brokenWriter = Some (TransportError "broken pipe") /\
  Encode (ptrCustomPacket (Some samplePacket)) {| bw := Some brokenWriter |}
  = (Err (TransportError "broken pipe"), {| bw := Some brokenWriter |}) /\
  Flush {| bw := Some brokenWriter |}
  = (Err (TransportError "broken pipe"), {| bw := Some brokenWriter |}).
Proof.
  split.
  - reflexivity.
  - apply (X10_pending_error_blocks brokenWriter samplePacket
             (TransportError "broken pipe")).
    reflexivity.
Defined.

Lemma X11_witness :
  match bw (defaultMessageEncoder openSink 4) with
  | None => True
  | Some w => buf w = [] /\ werr w = None
  end /\
  Flush (defaultMessageEncoder openSink 4)
  = (Ok tt, defaultMessageEncoder openSink 4).
Proof.
  split.
  - split; reflexivity.
  - apply (X11_Flush_nothing_to_do (defaultMessageEncoder openSink 4)).
    split; reflexivity.
Defined.

Lemma wf_SetErrCode (p : CustomPacket) (code : Z) :
  wf_CustomPacket p -> wf_CustomPacket (SetErrCode p code).
Proof.
  intros (Hs & _ & Hl & Hc). repeat split; try apply Hs; try apply Hl; try apply Hc;
    cbn [SetErrCode CustomPacket_methods embedded ErrCode]; unfold u16.
  - apply Z.mod_pos_bound. lia.
  - apply Z.mod_pos_bound. lia.
Qed.

(** X15.  A packet stamped with [SetErrCode] arrives with the code reduced
    modulo 2^16, so that a code that is a multiple of 65536 arrives as 0;
    the stamped packet need not have had an error code in range before. *)
Theorem X15_error_code_round_trip (p : CustomPacket) (code wsize rsize : Z) (c : error) :
  wf_CustomPacket p ->
  consistent p ->
  exists e1 e2,
    Encode (ptrCustomPacket (Some (SetErrCode p code)))
           (defaultMessageEncoder openSink wsize) = (Ok tt, e1) /\
    Flush e1 = (Ok tt, e2) /\
    Decode (decoderOn (transmitted e2) c rsize)
    = (Ok (ptrCustomPacket (Some (SetErrCode p code))), decoderOn [] c rsize) /\
    ErrCode (SetErrCode p code) = code mod 2 ^ 16.
Proof.
  intros Hw Hc.
  destruct (Encode_Flush_healthy (NewWriterSize openSink wsize) (SetErrCode p code)
              (healthy_NewWriterSize wsize)) as (e1 & E1 & F1).
  exists e1. eexists. split; [exact E1 |]. split; [exact F1 |].
  split; [| reflexivity].
  cbn [transmitted bw wr received].
  change (stream (NewWriterSize openSink wsize)) with (@nil byte).
  cbn [app]. rewrite <- (app_nil_r (frame _)).
  apply Decode_consistent_frame; [now apply wf_SetErrCode | exact Hc].
Qed.

(** X16.  [SetErrCode] changes bytes 5 and 6 of the frame and no other:
    they become the big-endian digits of [code mod 2^16]. *)
Theorem X16_SetErrCode_frame_bytes (p : CustomPacket) (code : Z) :
  frame (SetErrCode p code)
  = firstn 5 (frame p) ++ big_endian 2 (code mod 2 ^ 16) ++ skipn 7 (frame p).
Proof.
  rewrite <- PutUint16_big_endian.
  unfold frame, encode_Header, encode_uint8.
  cbn [SetErrCode CustomPacket_methods SOH embedded Seq ErrCode PacketLen
       Version CheckSum Body EOH].
  unfold BigEndian.PutUint32 at 1 3 5, BigEndian.PutUint16 at 1 3 5.
  cbn [app firstn skipn]. reflexivity.
Qed.

Lemma X15_witness :
  wf_CustomPacket samplePacket /\
  consistent samplePacket /\
  exists e1 e2,
    Encode (ptrCustomPacket (Some (SetErrCode samplePacket 65536)))
           (defaultMessageEncoder openSink 4) = (Ok tt, e1) /\
    Flush e1 = (Ok tt, e2) /\
    Decode (decoderOn (transmitted e2) EOF 0)
    = (Ok (ptrCustomPacket (Some (SetErrCode samplePacket 65536))),
       decoderOn [] EOF 0) /\
    ErrCode (SetErrCode samplePacket 65536) = 65536 mod 2 ^ 16.
Proof.
  assert (Hw : wf_CustomPacket samplePacket)
    by (repeat split; vm_compute; congruence).
  split; [exact Hw |]. split; [reflexivity |].
  apply (X15_error_code_round_trip samplePacket 65536 4 0 EOF).
  - exact Hw.
  - reflexivity.
Defined.

(** * Properties of package mongodb *)

Section DriverFacts.

Context {Client IniFile : Type}.
Variable drv : Driver Client IniFile.

Local Abbreviation MC := (@MongoClient Client IniFile).

Lemma initWithMongoConfig_keeps (m : MC) (c : MongoConfig) :
  let '(err, m', c') := initWithMongoConfig drv m c in
  startOnce m' = startOnce m /\ mDataBase m' = mDataBase m /\
  DbConfig m' = DbConfig m /\ DbConfPath m' = DbConfPath m /\
  (err <> None -> m' = m) /\
  (Hosts c <> [] -> c' = defaulted c) /\
  (Hosts c = [] -> c' = c /\ err = Some (errors_New "mongo Config No Hosts")).
Proof.
  unfold initWithMongoConfig.
  destruct (Hosts c) as [| h hs] eqn:Hh; cbn [length Nat.eqb].
  - repeat split; auto. intros H; now elim H.
  - destruct (mongo_Connect drv (connStr (defaulted c))) as [err | cl].
    + repeat split; auto; discriminate.
    + repeat split; auto; try discriminate. intros H; now elim H.
Qed.

Lemma initDbs_keeps (m : MC) (f : IniFile) (db : string) :
  let '(err, m') := initDbs drv m f db in
  startOnce m' = startOnce m /\ mDataBase m' = mDataBase m /\
  DbConfig m' = DbConfig m /\ DbConfPath m' = DbConfPath m /\
  (err <> None -> m' = m).
Proof.
  unfold initDbs.
  match goal with
  | |- context [initWithMongoConfig _ m ?c] =>
      pose proof (initWithMongoConfig_keeps m c) as H;
      destruct (initWithMongoConfig drv m c) as [[err m'] c']
  end.
  tauto.
Qed.

Lemma initObj_keeps (m : MC) (path : string) :
  let '(err, m') := initObjForMongoDb drv m path in
  startOnce m' = startOnce m /\ mDataBase m' = mDataBase m /\
  DbConfig m' = DbConfig m /\ DbConfPath m' = DbConfPath m /\
  (err <> None -> m' = m).
Proof.
  unfold initObjForMongoDb.
  destruct (String.eqb path ""); [auto |].
  destruct (negb (HasSuffix path ".ini")); [auto |].
  destruct (ini_Load drv path) as [err | f]; [auto |].
  apply initDbs_keeps.
Qed.

Lemma defaulted_options (c : MongoConfig) : optionStr (defaulted c) = optionStr c.
Proof.
  unfold defaulted. destruct (String.length (DataBase c) =? 0)%nat; reflexivity.
Qed.

Lemma defaulted_DataBase (c : MongoConfig) : DataBase (defaulted c) <> ""%string.
Proof.
  unfold defaulted.
  destruct (Nat.eqb_spec (String.length (DataBase c)) 0) as [Hz | Hnz];
    cbn [DataBase]; [discriminate |].
  intros H. rewrite H in Hnz. now apply Hnz.
Qed.

Lemma Start_done (m : MC) :
  startOnce m = true -> Start drv m = (None, m).
Proof. unfold Start. now intros ->. Qed.

Lemma Start_first (m : MC) :
  startOnce m = false ->
  let '(err, m') := Start drv m in
  startOnce m' = true /\ mDataBase m' = mDataBase m /\
  (err <> None -> client m' = client m).
Proof.
  intros Hs. unfold Start. rewrite Hs.
  destruct (DbConfig (set_startOnce m)) as [c |] eqn:Hc.
  - pose proof (initWithMongoConfig_keeps (set_startOnce m) c) as H.
    destruct (initWithMongoConfig drv (set_startOnce m) c)
      as [[err m'] c'].
    destruct H as (H1 & H2 & _ & _ & H4 & _).
    cbn [set_DbConfig startOnce mDataBase client].
    repeat split; try assumption. intros He. now rewrite (H4 He).
  - destruct (DbConf (set_startOnce m)) as [f |] eqn:Hf.
    + pose proof (initDbs_keeps (set_startOnce m) f (mDataBase (set_startOnce m))) as H.
      destruct (initDbs drv (set_startOnce m) f (mDataBase (set_startOnce m)))
        as [err m'].
      destruct H as (H1 & H2 & _ & _ & H4).
      repeat split; try assumption. intros He. now rewrite (H4 He).
    + match goal with
      | |- context [initObjForMongoDb _ ?m0 ?path] =>
          pose proof (initObj_keeps m0 path) as H;
          destruct (initObjForMongoDb drv m0 path) as [err m'];
          assert (K : startOnce m0 = true /\ mDataBase m0 = mDataBase m /\
                      client m0 = client m)
            by (destruct (String.eqb (DbConfPath (set_startOnce m)) "");
                repeat split)
      end.
      destruct H as (H1 & H2 & _ & _ & H4). destruct K as (K1 & K2 & K3).
      repeat split; try congruence. intros He. now rewrite (H4 He).
Qed.

(** X17.  [Start] runs its body once.  Whatever the first call returned, a
    second call returns nil and changes nothing, so a failed start cannot be
    retried; [Start] never changes the field [DataBase] of the client, and a
    call that returns an error leaves [client] as it was. *)
Theorem X17_Start_runs_once (m : MC) :
  Start drv (snd (Start drv m)) = (None, snd (Start drv m)) /\
  mDataBase (snd (Start drv m)) = mDataBase m /\
  (fst (Start drv m) <> None -> client (snd (Start drv m)) = client m).
Proof.
  destruct (startOnce m) eqn:Hs.
  - rewrite (Start_done m Hs). cbn [fst snd]. rewrite (Start_done m Hs).
    repeat split.
  - pose proof (Start_first m Hs) as H.
    destruct (Start drv m) as [err m']. cbn [fst snd].
    destruct H as (H1 & H2 & H3).
    split; [apply Start_done; exact H1 |]. split; assumption.
Qed.

(** X18.  Without [DbConfig] and [DbConf], an empty [DbConfPath] stands for
    [conf/conf.ini]: [Start] behaves as if that path had been set, and the
    client holds it afterwards. *)
Theorem X18_Start_empty_path_is_default (m : MC) :
  startOnce m = false -> DbConfig m = None -> DbConf m = None ->
  DbConfPath m = ""%string ->
  Start drv m = Start drv (set_DbConfPath m defaultConf) /\
  DbConfPath (snd (Start drv m)) = defaultConf.
Proof.
  intros Hs Hc Hf Hp. split.
  - unfold Start. cbn [set_DbConfPath startOnce DbConfig DbConf DbConfPath
                       set_startOnce].
    rewrite Hs, Hc, Hf, Hp. reflexivity.
  - unfold Start. cbn [startOnce DbConfig DbConf DbConfPath set_startOnce].
    rewrite Hs, Hc, Hf, Hp. cbn [String.eqb set_DbConfPath DbConfPath].
    match goal with
    | |- context [initObjForMongoDb _ ?m0 ?path] =>
        pose proof (initObj_keeps m0 path) as H;
        destruct (initObjForMongoDb drv m0 path) as [err m']
    end.
    cbn [snd]. destruct H as (_ & _ & _ & H & _). exact H.
Qed.

(** X19.  [Start] from a [DbConfig] with hosts writes the database name it
    uses back into the caller's configuration, [admin] when it was empty, and
    leaves the field [DataBase] of the client as it was. *)
Theorem X19_Start_defaults_config_DataBase (m : MC) (c : MongoConfig) :
  startOnce m = false -> DbConfig m = Some c -> Hosts c <> [] ->
  DbConfig (snd (Start drv m)) = Some (defaulted c) /\
  DataBase (defaulted c) <> ""%string /\
  mDataBase (snd (Start drv m)) = mDataBase m.
Proof.
  intros Hs Hc Hh. unfold Start. rewrite Hs.
  cbn [set_startOnce DbConfig]. rewrite Hc.
  match goal with
  | |- context [initWithMongoConfig _ ?m0 c] =>
      pose proof (initWithMongoConfig_keeps m0 c) as H;
      destruct (initWithMongoConfig drv m0 c) as [[err m'] c']
  end.
  destruct H as (_ & H2 & _ & _ & _ & H5 & _).
  cbn [snd set_DbConfig DbConfig mDataBase]. rewrite (H5 Hh).
  split; [reflexivity |]. split; [apply defaulted_DataBase | exact H2].
Qed.

(** X20.  A user name without password, or a password without user name,
    is left out of the connection string: [Start] connects to the address
    without credentials, and its result is the result of that connection. *)
Theorem X20_Start_drops_half_credentials (m : MC) (c : MongoConfig) :
  startOnce m = false -> DbConfig m = Some c -> Hosts c <> [] ->
  User c = ""%string \/ Password c = ""%string ->
  Start drv m =
  match mongo_Connect drv ("mongodb://" ++ String.concat "," (Hosts c) ++ "/"
                         ++ DataBase (defaulted c) ++ "?" ++ optionStr c)%string with
  | inl err => (Some err, set_DbConfig (set_startOnce m) (defaulted c))
  | inr cl => (None, set_DbConfig (set_client (set_startOnce m) cl) (defaulted c))
  end.
Proof.
  intros Hs Hc Hh Hcred. unfold Start. rewrite Hs.
  cbn [set_startOnce DbConfig]. rewrite Hc.
  unfold initWithMongoConfig.
  destruct (Hosts c) as [| h hs] eqn:Hhosts; [now elim Hh |].
  cbn [length Nat.eqb].
  assert (Hurl : connStr (defaulted c)
                 = ("mongodb://" ++ String.concat "," (h :: hs) ++ "/"
                      ++ DataBase (defaulted c) ++ "?" ++ optionStr c)%string).
  { unfold connStr. rewrite defaulted_options.
    assert (Hu : User (defaulted c) = User c)
      by (unfold defaulted; destruct (String.length (DataBase c) =? 0)%nat; reflexivity).
    assert (Hp : Password (defaulted c) = Password c)
      by (unfold defaulted; destruct (String.length (DataBase c) =? 0)%nat; reflexivity).
    assert (Hhs : Hosts (defaulted c) = h :: hs)
      by (unfold defaulted; destruct (String.length (DataBase c) =? 0)%nat;
          cbn [Hosts]; exact Hhosts).
    rewrite Hu, Hp, Hhs.
    destruct Hcred as [-> | ->]; cbn [String.length Nat.ltb Nat.leb andb];
      [reflexivity | now rewrite andb_false_r]. }
  rewrite Hurl.
  destruct (mongo_Connect drv _) as [err | cl]; reflexivity.
Qed.

End DriverFacts.

Section ConnectionString.

Local Open Scope string_scope.

Lemma append_nil_r (s : string) : s ++ "" = s.
Proof. induction s as [| a s IH]; cbn; [| rewrite IH]; reflexivity. Qed.

Lemma append_assoc (a b c : string) : (a ++ b) ++ c = a ++ b ++ c.
Proof. induction a as [| x a IH]; cbn; [| rewrite IH]; reflexivity. Qed.

Lemma concat_nosep_cons (x : string) (xs : list string) :
  String.concat "" (x :: xs) = x ++ String.concat "" xs.
Proof. destruct xs; cbn; [now rewrite append_nil_r | reflexivity]. Qed.

Lemma concat_nosep_app (l1 l2 : list string) :
  String.concat "" (l1 ++ l2)%list = String.concat "" l1 ++ String.concat "" l2.
Proof.
  induction l1 as [| x l1 IH]; [reflexivity |].
  cbn [app]. rewrite !concat_nosep_cons, IH. now rewrite append_assoc.
Qed.

Lemma add_text_item (cond : bool) (text s : string) :
  add_text cond text s = s ++ String.concat "" (option_item cond text).
Proof.
  unfold add_text, option_item. destruct cond; cbn; [reflexivity | now rewrite append_nil_r].
Qed.

Lemma length_append (a b : string) :
  String.length (a ++ b) = (String.length a + String.length b)%nat.
Proof. induction a as [| x a IH]; cbn; [| rewrite IH]; reflexivity. Qed.

Lemma length_concat_amp (l : list string) :
  String.length (String.concat "&" l)
  = (String.length (String.concat "" l) + (length l - 1))%nat.
Proof.
  induction l as [| x [| y l] IH]; [reflexivity | cbn; lia |].
  change (String.concat "&" (x :: y :: l)) with (x ++ "&" ++ String.concat "&" (y :: l)).
  change (String.concat "" (x :: y :: l)) with (x ++ "" ++ String.concat "" (y :: l)).
  rewrite !length_append, IH. cbn [String.length length]. lia.
Qed.

(** X21.  The options of the connection string follow each other with
    nothing between them, so with two or more options set the text is not
    the list of options joined by [&]. *)
Theorem X21_options_run_together (c : MongoConfig) :
  (2 <= length (option_items c))%nat ->
  optionStr c = String.concat "" (option_items c) /\
  optionStr c <> String.concat "&" (option_items c).
Proof.
  intros Htwo.
  assert (Heq : optionStr c = String.concat "" (option_items c)).
  { unfold optionStr, option_items.
    rewrite !add_text_item, !concat_nosep_app, !append_assoc. reflexivity. }
  split; [exact Heq |].
  intros Hamp. rewrite Heq in Hamp.
  apply (f_equal String.length) in Hamp.
  rewrite length_concat_amp in Hamp. lia.
Qed.

End ConnectionString.

Lemma X18_witness :
  startOnce bareClient = false /\ DbConfig bareClient = None /\
  DbConf bareClient = None /\ DbConfPath bareClient = ""%string /\
  Start sampleDriver bareClient
  = Start sampleDriver
          (set_DbConfPath bareClient defaultConf) /\
  DbConfPath (snd (Start sampleDriver bareClient))
  = defaultConf.
Proof.
  repeat (split; [reflexivity |]).
  apply (X18_Start_empty_path_is_default
           sampleDriver bareClient);
    reflexivity.
Defined.

Lemma X19_witness :
  startOnce configuredClient = false /\
  DbConfig configuredClient = Some sampleConfig /\
  Hosts sampleConfig <> [] /\
  DbConfig (snd (Start sampleDriver configuredClient))
  = Some (defaulted sampleConfig) /\
  DataBase (defaulted sampleConfig) <> ""%string /\
  mDataBase (snd (Start sampleDriver configuredClient))
  = mDataBase configuredClient.
Proof.
  assert (Hh : Hosts sampleConfig <> []) by discriminate.
  split; [reflexivity |]. split; [reflexivity |]. split; [exact Hh |].
  apply (X19_Start_defaults_config_DataBase
           sampleDriver configuredClient sampleConfig).
  - reflexivity.
  - reflexivity.
  - exact Hh.
Defined.

Lemma X20_witness :
  startOnce configuredClient = false /\
  DbConfig configuredClient = Some sampleConfig /\
  Hosts sampleConfig <> [] /\
  (User sampleConfig = ""%string \/ Password sampleConfig = ""%string) /\
  Start sampleDriver configuredClient =
  match mongo_Connect sampleDriver
          ("mongodb://" ++ String.concat "," (Hosts sampleConfig) ++ "/"
             ++ DataBase (defaulted sampleConfig) ++ "?"
             ++ optionStr sampleConfig)%string with
  | inl err => (Some err, set_DbConfig (set_startOnce configuredClient)
                                       (defaulted sampleConfig))
  | inr cl => (None, set_DbConfig (set_client (set_startOnce configuredClient) cl)
                                  (defaulted sampleConfig))
  end.
Proof.
  assert (Hh : Hosts sampleConfig <> []) by discriminate.
  assert (Hc : User sampleConfig = ""%string \/ Password sampleConfig = ""%string)
    by (right; reflexivity).
  split; [reflexivity |]. split; [reflexivity |]. split; [exact Hh |].
  split; [exact Hc |].
  apply (X20_Start_drops_half_credentials
           sampleDriver configuredClient sampleConfig).
  - reflexivity.
  - reflexivity.
  - exact Hh.
  - exact Hc.
Defined.

Lemma X21_witness :
  (2 <= length (option_items sampleConfig))%nat /\
  optionStr sampleConfig = String.concat "" (option_items sampleConfig) /\
  optionStr sampleConfig <> String.concat "&" (option_items sampleConfig).
Proof.
  assert (H : (2 <= length (option_items sampleConfig))%nat) by (cbn; lia).
  split; [exact H |].
  apply (X21_options_run_together sampleConfig). exact H.
Defined.
